(** * thriftpy.thrift: structural payload types and the RPC dispatch engine

    A shallow embedding of [thriftpy/thrift.py].  Python objects are modelled
    by value: a class object is an entry of a class table and is identified
    by its index there, an instance carries its identity ([id(self)]), its
    class and its attribute store.  Code that mutates an object returns the
    updated object; code that touches the class registry, allocates objects
    or talks to a protocol runs in a state-and-exception monad over [world]. *)

From Stdlib Require Import Ascii.
From stdpp Require Import base numbers strings list option gmap sorting.

Set Warnings "-register-all".

Open Scope string_scope.
Open Scope list_scope.

(** ** Python strings *)

(** [s.split(sep)] for a one-character separator. *)
Fixpoint split_on (sep : Ascii.ascii) (s : string) : list string :=
  match s with
  | EmptyString => [EmptyString]
  | String c r =>
      if Ascii.eqb c sep then EmptyString :: split_on sep r
      else match split_on sep r with
           | [] => [String c EmptyString]
           | h :: t => String c h :: t
           end
  end.

(** [l[-1]] on a list of strings. *)
Definition last_part (l : list string) : string := List.last l EmptyString.

(** [sep in s] for a one-character [sep]. *)
Fixpoint contains_char (sep : Ascii.ascii) (s : string) : bool :=
  match s with
  | EmptyString => false
  | String c r => Ascii.eqb c sep || contains_char sep r
  end.

(** [sep.join(l)]. *)
Fixpoint join (sep : string) (l : list string) : string :=
  match l with
  | [] => EmptyString
  | [x] => x
  | x :: r => x +:+ sep +:+ join sep r
  end.

(** ** Type tags and message kinds *)

Module TType.
Definition STOP : Z := 0.
Definition VOID : Z := 1.
Definition BOOL : Z := 2.
Definition BYTE : Z := 3.
Definition I08 : Z := 3.
Definition DOUBLE : Z := 4.
Definition I16 : Z := 6.
Definition I32 : Z := 8.
Definition I64 : Z := 10.
Definition STRING : Z := 11.
Definition UTF7 : Z := 11.
Definition BINARY : Z := 11.
Definition STRUCT : Z := 12.
Definition MAP : Z := 13.
Definition SET : Z := 14.
Definition LIST : Z := 15.
Definition UTF8 : Z := 16.
Definition UTF16 : Z := 17.
End TType.

Module TMessageType.
Definition CALL : Z := 1.
Definition REPLY : Z := 2.
Definition EXCEPTION : Z := 3.
Definition ONEWAY : Z := 4.
End TMessageType.

(** ** Values, classes and the world *)

(** Identity of a class object: its index in the class table. *)
Abbreviation cid := nat (only parsing).

(** Python values.  [VObj oid cls attrs] is an instance: [oid] is [id(self)],
    [cls] is [self.__class__] and [attrs] holds the attributes in the order
    they were first assigned (slot values and [__dict__] entries together;
    [__dict__] is the part whose names are not slots). *)
Inductive value :=
| VNone
| VInt (n : Z)
| VStr (s : string)
| VClass (c : cid)
| VObj (oid : nat) (cls : cid) (attrs : list (string * value)).

(** An entry of a [thrift_spec]: a 3-tuple [(ttype, name, required)] or a
    4-tuple [(ttype, name, spec, required)]. *)
Inductive field_spec :=
| Spec3 (ttype : Z) (name : string) (req : bool)
| Spec4 (ttype : Z) (name : string) (spec : value) (req : bool).

(** [thrift_spec[k][1]] *)
Definition spec_name (f : field_spec) : string :=
  match f with Spec3 _ n _ => n | Spec4 _ n _ _ => n end.

(** The [__init__] functions a class of this program can carry. *)
Inductive init_impl :=
| InitObject                 (* object.__init__ *)
| InitBaseException          (* BaseException.__init__ *)
| InitGenerated (spec : list (string * value))
                             (* init_func_generator(cls, spec) *)
| InitApplicationException.  (* TApplicationException.__init__ *)

(** A class object: its [__name__], [__module__], [__mro__] (itself first)
    and the attributes of its own namespace this program reads. *)
Record class := {
  c_name : string;
  c_module : string;
  c_mro : list cid;
  c_slots : option (list string);
  c_init : option init_impl;
  c_default_spec : option (list (string * value));
  c_thrift_spec : option (gmap Z field_spec);
  c_ttype : option Z;
  c_tspec : option (list (string * value));
  c_oneway : option bool;
}.

(** Built-in exception classes raised by the interpreter itself. *)
Inductive pyerr :=
| TypeError | AttributeError | KeyError | ValueError | IndexError | EOFError.

(** The result of an operation that can fail with an interpreter error
    before any object is allocated for it. *)
Inductive checked (A : Type) :=
| Ok (a : A)
| Err (k : pyerr).
Arguments Ok {A} a.
Arguments Err {A} k.

(** One incoming message as the protocol decodes it: the header and the
    fields [read_struct] assigns to the struct it is given. *)
Record message := {
  m_name : string;
  m_type : Z;
  m_seqid : Z;
  m_fields : list (string * value);
}.

(** Operations performed on a protocol object. *)
Inductive event :=
| ReadMessageBegin
| ReadStruct
| SkipField (ttype : Z)
| ReadMessageEnd
| WriteMessageBegin (name : string) (mtype : Z) (seqid : Z)
| WriteStruct (v : value)
| WriteMessageEnd
| Flush.

Record world := {
  w_classes : list class;              (* every class object created so far *)
  w_cache : gmap string cid;           (* TPayloadMeta._class_cache *)
  w_next_id : nat;                     (* next fresh id() *)
  w_input : list message;              (* what iprot will still deliver *)
  w_iprot : list event;                (* operations performed on iprot *)
  w_oprot : list event;                (* operations performed on oprot *)
  w_calls : list (string * list value) (* handler methods invoked *)
}.

Definition set_classes (f : list class → list class) (w : world) : world :=
  {| w_classes := f (w_classes w); w_cache := w_cache w;
     w_next_id := w_next_id w; w_input := w_input w; w_iprot := w_iprot w;
     w_oprot := w_oprot w; w_calls := w_calls w |}.

Definition set_cache (f : gmap string cid → gmap string cid) (w : world) : world :=
  {| w_classes := w_classes w; w_cache := f (w_cache w);
     w_next_id := w_next_id w; w_input := w_input w; w_iprot := w_iprot w;
     w_oprot := w_oprot w; w_calls := w_calls w |}.

Definition set_next_id (f : nat → nat) (w : world) : world :=
  {| w_classes := w_classes w; w_cache := w_cache w;
     w_next_id := f (w_next_id w); w_input := w_input w; w_iprot := w_iprot w;
     w_oprot := w_oprot w; w_calls := w_calls w |}.

Definition set_input (f : list message → list message) (w : world) : world :=
  {| w_classes := w_classes w; w_cache := w_cache w;
     w_next_id := w_next_id w; w_input := f (w_input w); w_iprot := w_iprot w;
     w_oprot := w_oprot w; w_calls := w_calls w |}.

Definition set_iprot (f : list event → list event) (w : world) : world :=
  {| w_classes := w_classes w; w_cache := w_cache w;
     w_next_id := w_next_id w; w_input := w_input w; w_iprot := f (w_iprot w);
     w_oprot := w_oprot w; w_calls := w_calls w |}.

Definition set_oprot (f : list event → list event) (w : world) : world :=
  {| w_classes := w_classes w; w_cache := w_cache w;
     w_next_id := w_next_id w; w_input := w_input w; w_iprot := w_iprot w;
     w_oprot := f (w_oprot w); w_calls := w_calls w |}.

Definition set_calls
    (f : list (string * list value) → list (string * list value))
    (w : world) : world :=
  {| w_classes := w_classes w; w_cache := w_cache w;
     w_next_id := w_next_id w; w_input := w_input w; w_iprot := w_iprot w;
     w_oprot := w_oprot w; w_calls := f (w_calls w) |}.

(** ** The state-and-exception monad *)

(** A computation returns, or raises the exception object [e]. *)
Inductive outcome (A : Type) :=
| Ret (a : A)
| Raise (e : value).
Arguments Ret {A} a.
Arguments Raise {A} e.

Definition M (A : Type) : Type := world → outcome A * world.

#[export] Instance M_ret : MRet M := λ A a w, (Ret a, w).

#[export] Instance M_bind : MBind M := λ A B f m w,
  match m w with
  | (Ret a, w') => f a w'
  | (Raise e, w') => (Raise e, w')
  end.

Definition raise {A} (e : value) : M A := λ w, (Raise e, w).
Definition get_world : M world := λ w, (Ret w, w).
Definition modify (f : world → world) : M unit := λ w, (Ret tt, f w).
Definition fresh_id : M nat := λ w, (Ret (w_next_id w), set_next_id S w).

(** [for x in l: acc = f(acc, x)] *)
Fixpoint foldM {A B} (f : A → B → M A) (acc : A) (l : list B) : M A :=
  match l with
  | [] => mret acc
  | x :: r => acc' ← f acc x; foldM f acc' r
  end.

(** ** Attribute stores *)

(** [d.get(k)] on an insertion-ordered dictionary. *)
Fixpoint assoc_get {A} (k : string) (l : list (string * A)) : option A :=
  match l with
  | [] => None
  | (k', v) :: r => if String.eqb k k' then Some v else assoc_get k r
  end.

(** [d[k] = v]: an existing key keeps its position, a new key goes last. *)
Fixpoint assoc_set {A} (k : string) (v : A) (l : list (string * A))
    : list (string * A) :=
  match l with
  | [] => [(k, v)]
  | (k', v') :: r =>
      if String.eqb k k' then (k, v) :: r else (k', v') :: assoc_set k v r
  end.

(** ** The classes this module defines, and the built-in ones under them *)

Definition cls_object : cid := 0.
Definition cls_BaseException : cid := 1.
Definition cls_Exception : cid := 2.
Definition cls_TPayload : cid := 3.
Definition cls_TSPayload : cid := 4.
Definition cls_TException : cid := 5.
Definition cls_TApplicationException : cid := 6.
Definition cls_TypeError : cid := 7.
Definition cls_AttributeError : cid := 8.
Definition cls_ValueError : cid := 9.
Definition cls_LookupError : cid := 10.
Definition cls_KeyError : cid := 11.
Definition cls_IndexError : cid := 12.
Definition cls_EOFError : cid := 13.

Definition pyerr_class (k : pyerr) : cid :=
  match k with
  | TypeError => cls_TypeError
  | AttributeError => cls_AttributeError
  | ValueError => cls_ValueError
  | KeyError => cls_KeyError
  | IndexError => cls_IndexError
  | EOFError => cls_EOFError
  end.

(** The interpreter raises a new instance of a built-in exception class. *)
Definition raise_py {A} (k : pyerr) : M A :=
  i ← fresh_id; raise (VObj i (pyerr_class k) []).

(** Lift a lookup that raises [k] when it finds nothing. *)
Definition or_raise {A} (k : pyerr) (o : option A) : M A :=
  match o with Some a => mret a | None => raise_py k end.

Definition lift {A} (r : checked A) : M A :=
  match r with Ok a => mret a | Err k => raise_py k end.

Definition mk_class (name module : string) (mro : list cid)
    (slots : option (list string)) (init : option init_impl)
    (tspec : option (gmap Z field_spec)) : class :=
  {| c_name := name; c_module := module; c_mro := mro; c_slots := slots;
     c_init := init; c_default_spec := None; c_thrift_spec := tspec;
     c_ttype := None; c_tspec := None; c_oneway := None |}.

(** [TApplicationException.thrift_spec] *)
Definition TApplicationException_thrift_spec : gmap Z field_spec :=
  <[1%Z := Spec3 TType.STRING "message" false]>
  (<[2%Z := Spec3 TType.I32 "type" false]> ∅).

Definition builtin_classes : list class :=
  [ mk_class "object" "builtins" [0] None (Some InitObject) None;
    mk_class "BaseException" "builtins" [1; 0] None
      (Some InitBaseException) None;
    mk_class "Exception" "builtins" [2; 1; 0] None None None;
    mk_class "TPayload" "thriftpy.thrift" [3; 0] None None None;
    mk_class "TSPayload" "thriftpy.thrift" [4; 0] (Some []) None None;
    mk_class "TException" "thriftpy.thrift" [5; 3; 2; 1; 0] None None None;
    mk_class "TApplicationException" "thriftpy.thrift" [6; 5; 3; 2; 1; 0]
      None (Some InitApplicationException)
      (Some TApplicationException_thrift_spec);
    mk_class "TypeError" "builtins" [7; 2; 1; 0] None None None;
    mk_class "AttributeError" "builtins" [8; 2; 1; 0] None None None;
    mk_class "ValueError" "builtins" [9; 2; 1; 0] None None None;
    mk_class "LookupError" "builtins" [10; 2; 1; 0] None None None;
    mk_class "KeyError" "builtins" [11; 10; 2; 1; 0] None None None;
    mk_class "IndexError" "builtins" [12; 10; 2; 1; 0] None None None;
    mk_class "EOFError" "builtins" [13; 2; 1; 0] None None None ].

(** The world when the module has just been imported. *)
Definition world0 : world :=
  {| w_classes := builtin_classes; w_cache := ∅; w_next_id := 0;
     w_input := []; w_iprot := []; w_oprot := []; w_calls := [] |}.

(** ** Class objects *)

(** [cls.__mro__] *)
Definition mro (w : world) (c : cid) : list cid :=
  from_option c_mro [] (w_classes w !! c).

(** [getattr(cls, name)] for an attribute kept in the class namespaces: the
    first class of the MRO that has it. *)
Definition class_attr {A} (proj : class → option A) (w : world) (c : cid)
    : option A :=
  head (omap (λ k, w_classes w !! k ≫= proj) (mro w c)).

(** [issubclass(c, d)] as [type] decides it. *)
Definition is_subclass (w : world) (c d : cid) : bool :=
  bool_decide (d ∈ mro w c).

(** Modelled from the spec: [_compat.with_metaclass] is not among the
    sources.  By the metaclass-driven class replacement the spec describes,
    [TPayload] and [TSPayload] are classes with [object] as only base and
    [TPayloadMeta] as metaclass, and so is every class deriving from them. *)
Definition is_payload_class (w : world) (c : cid) : bool :=
  is_subclass w c cls_TPayload || is_subclass w c cls_TSPayload.

(** The names that have a slot descriptor on instances of [c]. *)
Definition slot_names (w : world) (c : cid) : list string :=
  mro w c ≫= (λ k, default [] (w_classes w !! k ≫= c_slots)).

(** Instances of [c] have a [__dict__]: some class of the MRO other than
    [object] was created without [__slots__]. *)
Definition has_dict (w : world) (c : cid) : bool :=
  existsb (λ k, negb (Nat.eqb k cls_object) &&
                match w_classes w !! k with
                | Some cl => negb (bool_decide (is_Some (c_slots cl)))
                | None => false
                end) (mro w c).

(** ** Instances *)

Definition class_of (v : value) : option cid :=
  match v with VObj _ c _ => Some c | _ => None end.

(** [id(v)] of an instance. *)
Definition id_of (v : value) : option nat :=
  match v with VObj i _ _ => Some i | _ => None end.

Definition attrs_of (v : value) : list (string * value) :=
  match v with VObj _ _ a => a | _ => [] end.

(** [hasattr(o, k)] for an instance attribute. *)
Definition hasattr (o : value) (k : string) : bool :=
  bool_decide (is_Some (assoc_get k (attrs_of o))).

(** [o.k] for an instance attribute. *)
Definition getattr (o : value) (k : string) : M value :=
  or_raise AttributeError (assoc_get k (attrs_of o)).

(** [o.__dict__] *)
Definition obj_dict (w : world) (o : value) : option (list (string * value)) :=
  match o with
  | VObj _ c attrs =>
      if has_dict w c
      then Some (filter (λ kv, kv.1 ∉ slot_names w c) attrs)
      else None
  | _ => None
  end.

(** [setattr(o, k, v)]: the updated object. *)
Definition set_attribute (w : world) (o : value) (k : string) (v : value)
    : checked value :=
  match o with
  | VObj i c attrs =>
      if bool_decide (k ∈ slot_names w c) || has_dict w c
      then Ok (VObj i c (assoc_set k v attrs))
      else Err AttributeError
  | _ => Err AttributeError
  end.

Definition setattr (o : value) (k : string) (v : value) : M value :=
  w ← get_world; lift (set_attribute w o k v).

(** Truth value of [v] in a condition.  Classes and payload instances
    define neither [__bool__] nor [__len__]. *)
Definition truthy (v : value) : bool :=
  match v with
  | VNone => false
  | VInt n => negb (Z.eqb n 0)
  | VStr s => negb (String.eqb s "")
  | VClass _ => true
  | VObj _ _ _ => true
  end.

(** [v is not None] *)
Definition is_not_None (v : value) : bool :=
  match v with VNone => false | _ => true end.

(** ** Calling classes *)

(** Calling [def f(self, n1=d1, ..., nk=dk)] with positional arguments
    [args] and keyword arguments [kw]: the value every parameter receives in
    parameter order, or [None] when the call is a TypeError (too many
    positional arguments, an unknown keyword, or a parameter given twice). *)
Definition bind_args (params : list (string * value)) (args : list value)
    (kw : list (string * value)) : option (list (string * value)) :=
  if bool_decide (length params < length args) then None
  else
    let names := params.*1 in
    let positional := zip (take (length args) names) args in
    if forallb (λ kv, bool_decide (kv.1 ∈ names) &&
                      negb (bool_decide (kv.1 ∈ positional.*1))) kw
    then Some (map (λ p, (p.1, default (default p.2 (assoc_get p.1 kw))
                                       (assoc_get p.1 positional))) params)
    else None.

(** [init_func_generator(cls, spec)]: the function
    [def __init__(self, n1=d1, ..., nk=dk): self.n1 = n1; ...; self.nk = nk],
    and [def __init__(self): pass] for an empty [spec]. *)
Definition init_func_generator (spec : list (string * value)) : init_impl :=
  InitGenerated spec.

(** The parameters of [TApplicationException.__init__]:
    [def __init__(self, type=UNKNOWN, message=None)]. *)
Definition TApplicationException_params : list (string * value) :=
  [("type", VInt 0); ("message", VNone)].

(** [for k, v in bound: setattr(self, k, v)] *)
Definition assign_all (self : value) (bound : list (string * value)) : M value :=
  foldM (λ o kv, setattr o kv.1 kv.2) self bound.

(** Running an [__init__] on [self]: the initialised object. *)
Definition call_init (impl : init_impl) (self : value) (args : list value)
    (kw : list (string * value)) : M value :=
  match impl with
  | InitObject =>
      match args, kw with [], [] => mret self | _, _ => raise_py TypeError end
  | InitBaseException =>
      match kw with [] => mret self | _ => raise_py TypeError end
  | InitGenerated spec =>
      bound ← or_raise TypeError (bind_args spec args kw);
      assign_all self bound
  | InitApplicationException =>
      bound ← or_raise TypeError (bind_args TApplicationException_params args kw);
      (* super(TApplicationException, self).__init__() takes no argument and
         sets no attribute; then self.type = type; self.message = message *)
      assign_all self bound
  end.

(** [cls.__init__] *)
Definition resolve_init (w : world) (c : cid) : init_impl :=
  default InitObject (class_attr c_init w c).

(** [type.__call__(cls, *args, **kw)]: allocate, then initialise. *)
Definition type___call__ (cls : cid) (args : list value)
    (kw : list (string * value)) : M value :=
  w ← get_world;
  i ← fresh_id;
  call_init (resolve_init w cls) (VObj i cls []) args kw.

(** [type.__instancecheck__(cls, inst)] *)
Definition type___instancecheck__ (w : world) (cls : cid) (inst : value) : bool :=
  match inst with
  | VObj _ c _ => is_subclass w c cls
  | _ => bool_decide (cls = cls_object)
  end.

(** ["%s:%s" % (type(v).__module__, type(v).__name__)] *)
Definition type_key (w : world) (v : value) : option string :=
  match v with
  | VNone => Some "builtins:NoneType"
  | VInt _ => Some "builtins:int"
  | VStr _ => Some "builtins:str"
  | VClass c =>
      if is_payload_class w c then Some "thriftpy.thrift:TPayloadMeta"
      else Some "builtins:type"
  | VObj _ c _ =>
      cl ← w_classes w !! c; Some (c_module cl +:+ ":" +:+ c_name cl)
  end.

(** [type(name, bases, attrs)]: a new class object, last in the table.  Its
    MRO is itself followed by the MRO that was given as bases. *)
Definition alloc_class (mk : cid → class) : M cid := λ w,
  let n := length (w_classes w) in
  (Ret n, set_classes (λ l, l ++ [mk n]) w).

(** [setattr(cls, ...)] on the class object [c]. *)
Definition update_class (c : cid) (f : class → class) : M unit :=
  modify (set_classes (alter f c)).

Definition with_ttype (v : Z) (cl : class) : class :=
  {| c_name := c_name cl; c_module := c_module cl; c_mro := c_mro cl;
     c_slots := c_slots cl; c_init := c_init cl;
     c_default_spec := c_default_spec cl; c_thrift_spec := c_thrift_spec cl;
     c_ttype := Some v; c_tspec := c_tspec cl; c_oneway := c_oneway cl |}.

Definition with_tspec (v : list (string * value)) (cl : class) : class :=
  {| c_name := c_name cl; c_module := c_module cl; c_mro := c_mro cl;
     c_slots := c_slots cl; c_init := c_init cl;
     c_default_spec := c_default_spec cl; c_thrift_spec := c_thrift_spec cl;
     c_ttype := c_ttype cl; c_tspec := Some v; c_oneway := c_oneway cl |}.

Definition with_default_spec (v : list (string * value)) (cl : class) : class :=
  {| c_name := c_name cl; c_module := c_module cl; c_mro := c_mro cl;
     c_slots := c_slots cl; c_init := c_init cl;
     c_default_spec := Some v; c_thrift_spec := c_thrift_spec cl;
     c_ttype := c_ttype cl; c_tspec := c_tspec cl; c_oneway := c_oneway cl |}.

Definition with_thrift_spec (v : gmap Z field_spec) (cl : class) : class :=
  {| c_name := c_name cl; c_module := c_module cl; c_mro := c_mro cl;
     c_slots := c_slots cl; c_init := c_init cl;
     c_default_spec := c_default_spec cl; c_thrift_spec := Some v;
     c_ttype := c_ttype cl; c_tspec := c_tspec cl; c_oneway := c_oneway cl |}.

Definition with_init (v : init_impl) (cl : class) : class :=
  {| c_name := c_name cl; c_module := c_module cl; c_mro := c_mro cl;
     c_slots := c_slots cl; c_init := Some v;
     c_default_spec := c_default_spec cl; c_thrift_spec := c_thrift_spec cl;
     c_ttype := c_ttype cl; c_tspec := c_tspec cl; c_oneway := c_oneway cl |}.

(** [gen_init(cls, thrift_spec, default_spec)] *)
Definition gen_init (cls : cid) (thrift_spec : option (gmap Z field_spec))
    (default_spec : option (list (string * value))) : M cid :=
  _ ← match thrift_spec with
      | Some ts => update_class cls (with_thrift_spec ts)
      | None => mret tt
      end;
  _ ← match default_spec with
      | Some ds => update_class cls (with_init (init_func_generator ds))
      | None => mret tt
      end;
  mret cls.

Module TPayloadMeta.

  (** [TPayloadMeta.__new__(cls, name, bases, attrs)]: the class object
      made from a name, the MRO its bases give it, and the [__module__],
      [__slots__] and [default_spec] entries of [attrs]; [default_spec] is
      taken out of the namespace and turned into [__init__]. *)
Definition __new__ (name module : string) (mro : list cid)
      (slots : option (list string))
      (default_spec : option (list (string * value))) : class :=
    {| c_name := name; c_module := module; c_mro := mro; c_slots := slots;
       c_init := init_func_generator <$> default_spec;
       c_default_spec := None; c_thrift_spec := None; c_ttype := None;
       c_tspec := None; c_oneway := None |}.

  (** [TPayloadMeta.__instancecheck__(cls, inst)] *)
Definition __instancecheck__ (w : world) (cls : cid) (inst : value) : bool :=
    match type_key w inst with
    | None => false
    | Some key =>
        match w_cache w !! key with
        | None => type___instancecheck__ w cls inst
        | Some repl_cls => bool_decide (class_of inst = Some repl_cls)
        end
    end.

  (** The key [__call__] files a class under:
      ['%s:%s' % (cls.__module__, cls.__name__.split('.')[-1])]. *)
Definition cache_key (cl : class) : string :=
    c_module cl +:+ ":" +:+ last_part (split_on "."%char (c_name cl)).

  (** The registry half of [__call__]: the class the instance is made from,
      taken from [_class_cache] or built and filed there. *)
Definition synthesize (cls : cid) : M cid :=
    w ← get_world;
    cl ← or_raise AttributeError (w_classes w !! cls);
    let cls_name := last_part (split_on "."%char (c_name cl)) in
    let cache_key := c_module cl +:+ ":" +:+ cls_name in
    default_spec ← or_raise AttributeError (class_attr c_default_spec w cls);
    let fields := default_spec.*1 in
    match w_cache w !! cache_key with
    | Some cls_obj => mret cls_obj
    | None =>
        cls_obj ← alloc_class (λ n,
          __new__ cls_name (c_module cl) (n :: c_mro cl) (Some fields) None);
        ttype ← or_raise AttributeError (class_attr c_ttype w cls);
        _ ← update_class cls_obj (with_ttype ttype);
        tspec ← or_raise AttributeError (class_attr c_tspec w cls);
        _ ← update_class cls_obj (with_tspec tspec);
        _ ← update_class cls_obj (with_default_spec default_spec);
        thrift_spec ← or_raise AttributeError (class_attr c_thrift_spec w cls);
        _ ← update_class cls_obj (with_thrift_spec thrift_spec);
        _ ← update_class cls_obj (with_init (init_func_generator default_spec));
        _ ← modify (set_cache <[cache_key := cls_obj]>);
        mret cls_obj
    end.

  (** [TPayloadMeta.__call__(cls, *args, **kw)] *)
Definition __call__ (cls : cid) (args : list value)
      (kw : list (string * value)) : M value :=
    w ← get_world;
    base ← or_raise IndexError (mro w cls !! 1);
    if negb (Nat.eqb base cls_TSPayload)
    then type___call__ cls (VClass cls :: args) kw
    else
      cls_obj ← synthesize cls;
      type___call__ cls_obj args kw.

End TPayloadMeta.

(** [cls(...)]: the metaclass of [cls] takes the call. *)
Definition instantiate (cls : cid) (args : list value)
    (kw : list (string * value)) : M value :=
  w ← get_world;
  if is_payload_class w cls then TPayloadMeta.__call__ cls args kw
  else type___call__ cls args kw.

(** ** Instance checks *)

(** [isinstance(inst, cls)]: the interpreter answers an exact type match
    itself and otherwise asks the metaclass of [cls]. *)
Definition isinstance (w : world) (inst : value) (cls : cid) : bool :=
  if bool_decide (class_of inst = Some cls) then true
  else if is_payload_class w cls then TPayloadMeta.__instancecheck__ w cls inst
  else type___instancecheck__ w cls inst.

(** ** Equality, hashing and representation of payloads *)

(** The [__eq__] and [__hash__] functions found in this module and on
    [object].  Classes made elsewhere (by the IDL compiler, or by
    [TPayloadMeta.__call__]) define neither and inherit along their MRO. *)
Inductive eq_impl := EqObject | EqPayload | EqSlots | EqIdentity.
Inductive hash_impl := HashObject | HashDisabled | HashIdentity.

Definition own_eq (c : cid) : option eq_impl :=
  if Nat.eqb c cls_TException then Some EqIdentity
  else if Nat.eqb c cls_TPayload then Some EqPayload
  else if Nat.eqb c cls_TSPayload then Some EqSlots
  else if Nat.eqb c cls_object then Some EqObject
  else None.

Definition own_hash (c : cid) : option hash_impl :=
  if Nat.eqb c cls_TException then Some HashIdentity
  else if Nat.eqb c cls_TPayload then Some HashDisabled
  else if Nat.eqb c cls_TSPayload then Some HashDisabled
  else if Nat.eqb c cls_object then Some HashObject
  else None.

(** [type(self).__eq__] and [type(self).__hash__] *)
Definition resolve_eq (w : world) (c : cid) : eq_impl :=
  default EqObject (head (omap own_eq (mro w c))).

Definition resolve_hash (w : world) (c : cid) : hash_impl :=
  default HashObject (head (omap own_hash (mro w c))).

(** The slot names [TSPayload] collects:
    [chain.from_iterable(getattr(cls, '__slots__', tuple()) for cls in type(self).__mro__)] *)
Definition slot_keys (w : world) (c : cid) : list string :=
  mro w c ≫= (λ k, default [] (class_attr c_slots w k)).

Section Compare.
  (** [==] on attribute values. *)
Variable veq : value → value → checked bool.

  (** The loop of [d1 == d2] over the items of [d1], where [d1] is the part
      of [l] whose names are not in [skip]. *)
Fixpoint items_eq (skip : list string) (l db : list (string * value))
      : checked bool :=
    match l with
    | [] => Ok true
    | (k, v) :: r =>
        if bool_decide (k ∈ skip) then items_eq skip r db
        else match assoc_get k db with
             | None => Ok false
             | Some v' =>
                 match veq v v' with
                 | Ok true => items_eq skip r db
                 | res => res
                 end
             end
    end.

  (** [TPayload.__eq__] on [self = VObj i c attrs]:
      [isinstance(other, self.__class__) and self.__dict__ == other.__dict__] *)
Definition payload_eq (w : world) (c : cid) (attrs : list (string * value))
      (other : value) : checked bool :=
    if isinstance w other c then
      if has_dict w c then
        match obj_dict w other with
        | None => Err AttributeError
        | Some db =>
            let skip := slot_names w c in
            if Nat.eqb (length (filter (λ kv, kv.1 ∉ skip) attrs)) (length db)
            then items_eq skip attrs db
            else Ok false
        end
      else Err AttributeError
    else Ok false.

  (** [getter(self) == getter(other)] of [TSPayload.__eq__], key by key. *)
Definition getters_eq (l db : list (string * value))
      : list string → checked bool :=
    fix go (keys : list string) : checked bool :=
      match keys with
      | [] => Ok true
      | k :: ks =>
          (fix find (l' : list (string * value)) : checked bool :=
             match l' with
             | [] => Err AttributeError
             | (k', v) :: r =>
                 if String.eqb k k' then
                   match assoc_get k db with
                   | None => Err AttributeError
                   | Some v' =>
                       match veq v v' with
                       | Ok true => go ks
                       | res => res
                       end
                   end
                 else find r
             end) l
      end.

  (** [TSPayload.__eq__] on [self = VObj i c attrs]. *)
Definition slots_eq (w : world) (c : cid) (attrs : list (string * value))
      (other : value) : checked bool :=
    if isinstance w other c then
      match slot_keys w c with
      | [] => Err TypeError   (* attrgetter() needs an argument *)
      | keys =>
          if forallb (λ k, bool_decide (is_Some (assoc_get k attrs))) keys
          then getters_eq attrs (attrs_of other) keys
          else Err AttributeError
      end
    else Ok false.
End Compare.

(** [a == b].  An instance compares with the [__eq__] its class inherits;
    [object.__eq__] is identity. *)
Fixpoint py_eq (w : world) (a b : value) {struct a} : checked bool :=
  match a with
  | VNone => Ok (match b with VNone => true | _ => false end)
  | VInt n => Ok (match b with VInt m => Z.eqb n m | _ => false end)
  | VStr s => Ok (match b with VStr t => String.eqb s t | _ => false end)
  | VClass c => Ok (match b with VClass d => Nat.eqb c d | _ => false end)
  | VObj i c attrs =>
      match resolve_eq w c with
      | EqIdentity => Ok (bool_decide (Some i = id_of b))
      | EqObject => Ok (bool_decide (Some i = id_of b))
      | EqPayload => payload_eq (py_eq w) w c attrs b
      | EqSlots => slots_eq (py_eq w) w c attrs b
      end
  end.

Module TPayload.

  (** [TPayload.__eq__(self, other)] *)
Definition __eq__ (w : world) (self other : value) : checked bool :=
    match self with
    | VObj _ c attrs => payload_eq (py_eq w) w c attrs other
    | _ => Err AttributeError
    end.

  (** [TPayload.__ne__(self, other)] *)
Definition __ne__ (w : world) (self other : value) : checked bool :=
    match py_eq w self other with
    | Ok b => Ok (negb b)
    | Err k => Err k
    end.

Section Repr.
    (** The built-in [repr] used by [%r]. *)
Variable repr : value → string.

    (** [TPayload.__repr__(self)] *)
Definition __repr__ (w : world) (self : value) : checked string :=
      match obj_dict w self, class_of self ≫= (λ c, w_classes w !! c) with
      | Some d, Some cl =>
          let l := map (λ kv, kv.1 +:+ "=" +:+ repr kv.2) d in
          Ok (c_name cl +:+ "(" +:+ join ", " l +:+ ")")
      | _, _ => Err AttributeError
      end.

    (** [TPayload.__str__(self)] *)
Definition __str__ (w : world) (self : value) : checked string :=
      __repr__ w self.
End Repr.

End TPayload.

Module TSPayload.

  (** [TSPayload.__eq__(self, other)] *)
Definition __eq__ (w : world) (self other : value) : checked bool :=
    match self with
    | VObj _ c attrs => slots_eq (py_eq w) w c attrs other
    | _ => Err AttributeError
    end.

  (** [TSPayload.__ne__(self, other)] *)
Definition __ne__ (w : world) (self other : value) : checked bool :=
    match py_eq w self other with
    | Ok b => Ok (negb b)
    | Err k => Err k
    end.

End TSPayload.

Module TException.

  (** [TException.__hash__(self)]: [id(self)] *)
Definition __hash__ (self : value) : option nat := id_of self.

  (** [TException.__eq__(self, other)]: [id(self) == id(other)] *)
Definition __eq__ (self other : value) : bool :=
    bool_decide (id_of self = id_of other).

End TException.

Module TApplicationException.
Definition UNKNOWN : Z := 0.
Definition UNKNOWN_METHOD : Z := 1.
Definition INVALID_MESSAGE_TYPE : Z := 2.
Definition WRONG_METHOD_NAME : Z := 3.
Definition BAD_SEQUENCE_ID : Z := 4.
Definition MISSING_RESULT : Z := 5.
Definition INTERNAL_ERROR : Z := 6.
Definition PROTOCOL_ERROR : Z := 7.
End TApplicationException.

(** ** Raising and catching *)

(** [raise v] *)
Definition py_raise {A} (v : value) : M A :=
  w ← get_world;
  match v with
  | VObj _ c _ =>
      if is_subclass w c cls_BaseException then raise v else raise_py TypeError
  | VClass c =>
      if is_subclass w c cls_BaseException
      then inst ← instantiate c [] []; raise inst
      else raise_py TypeError
  | _ => raise_py TypeError
  end.

(** [try: body  except Exception as e: handler(e)] *)
Definition try_except {A} (body : M A) (handler : value → M A) : M A := λ w,
  match body w with
  | (Ret a, w') => (Ret a, w')
  | (Raise e, w') =>
      match class_of e with
      | Some c =>
          if is_subclass w' c cls_Exception then handler e w' else (Raise e, w')
      | None => (Raise e, w')
      end
  end.

(** [isinstance(inst, cls)] where [cls] is whatever a [thrift_spec] holds. *)
Definition isinstance_value (inst cls : value) : M bool :=
  w ← get_world;
  match cls with
  | VClass c => mret (isinstance w inst c)
  | _ => raise_py TypeError
  end.

(** ** The protocol and transport boundary

    The protocol and transport classes are not among the sources; their
    operations are modelled from the protocol boundary of the spec
    ([read_message_begin], [read_struct], [skip], [write_struct], ...).
    Every operation is logged, reads are served from [w_input]. *)

Definition log_iprot (e : event) : M unit := modify (set_iprot (λ l, l ++ [e])).
Definition log_oprot (e : event) : M unit := modify (set_oprot (λ l, l ++ [e])).

(** Modelled from the spec: [iprot.read_message_begin()] yields the header
    [(name, messageType, seqId)] of the next message. *)
Definition read_message_begin : M (string * Z * Z) :=
  _ ← log_iprot ReadMessageBegin;
  w ← get_world;
  match w_input w with
  | [] => raise_py EOFError
  | m :: _ => mret (m_name m, m_type m, m_seqid m)
  end.

(** Modelled from the spec: [iprot.read_struct(obj)] decodes a struct into
    [obj]; the decoded fields are assigned to it one by one. *)
Definition read_struct (obj : value) : M value :=
  _ ← log_iprot ReadStruct;
  w ← get_world;
  match w_input w with
  | [] => raise_py EOFError
  | m :: _ => assign_all obj (m_fields m)
  end.

(** Modelled from the spec: [iprot.skip(ttype)] *)
Definition skip (ttype : Z) : M unit := log_iprot (SkipField ttype).

(** Modelled from the spec: [iprot.read_message_end()]; the message is
    consumed. *)
Definition read_message_end : M unit :=
  _ ← log_iprot ReadMessageEnd;
  modify (set_input (drop 1)).

(** Modelled from the spec: [oprot.write_message_begin(name, ttype, seqid)] *)
Definition write_message_begin (name : string) (mtype seqid : Z) : M unit :=
  log_oprot (WriteMessageBegin name mtype seqid).

(** Modelled from the spec: [oprot.write_struct(obj)] *)
Definition write_struct (obj : value) : M unit := log_oprot (WriteStruct obj).

(** Modelled from the spec: [oprot.write_message_end()] *)
Definition write_message_end : M unit := log_oprot WriteMessageEnd.

(** Modelled from the spec: [oprot.trans.flush()] *)
Definition flush : M unit := log_oprot Flush.

(** ** Services *)

(** A service object: [thrift_services] and the [<api>_args] and
    [<api>_result] classes it carries as attributes. *)
Record service := {
  thrift_services : list string;
  service_attrs : list (string * cid);
}.

(** [getattr(service, name)] *)
Definition service_getattr (s : service) (name : string) : M cid :=
  or_raise AttributeError (assoc_get name (service_attrs s)).

(** [cls.thrift_spec] *)
Definition get_thrift_spec (cls : cid) : M (gmap Z field_spec) :=
  w ← get_world; or_raise AttributeError (class_attr c_thrift_spec w cls).

(** [cls.oneway] *)
Definition get_oneway (cls : cid) : M bool :=
  w ← get_world; or_raise AttributeError (class_attr c_oneway w cls).

(** [sorted(thrift_spec)] *)
Definition sorted_keys (spec : gmap Z field_spec) : list Z :=
  merge_sort Z.le (map_to_list spec).*1.

(** [[thrift_spec[k][1] for k in sorted(thrift_spec)]] *)
Definition field_names (spec : gmap Z field_spec) : list string :=
  omap (λ k, spec_name <$> spec !! k) (sorted_keys spec).

(** [dict(pairs)] *)
Definition dict_of (pairs : list (string * value)) : list (string * value) :=
  foldl (λ d kv, assoc_set kv.1 kv.2 d) [] pairs.

(** [d.update(other)] *)
Definition dict_update (d other : list (string * value))
    : list (string * value) :=
  foldl (λ d kv, assoc_set kv.1 kv.2 d) d other.

(** [args2kwargs(thrift_spec, *args)] *)
Definition args2kwargs (thrift_spec : gmap Z field_spec) (args : list value)
    : list (string * value) :=
  let arg_names := field_names thrift_spec in
  dict_of (zip arg_names args).

(** ** The client *)

Record TClient_obj := {
  _service : service;
  _seqid : Z;
}.

Module TClient.

  (** [TClient.__init__(self, service, iprot, oprot)] *)
Definition __init__ (service : service) : TClient_obj :=
    {| _service := service; _seqid := 0 |}.

  (** [TClient._send(self, _api, **kwargs)] *)
Definition _send (self : TClient_obj) (_api : string)
      (kwargs : list (string * value)) : M unit :=
    _ ← write_message_begin _api TMessageType.CALL (_seqid self);
    args_cls ← service_getattr (_service self) (_api +:+ "_args");
    args ← instantiate args_cls [] [];
    args ← assign_all args kwargs;
    _ ← write_struct args;
    _ ← write_message_end;
    flush.

  (** The part of [_recv] that follows the decoding of the result struct. *)
Definition _recv_result (result : value) : M value :=
    w ← get_world;
    let success := assoc_get "success" (attrs_of result) in
    if hasattr result "success" && is_not_None (default VNone success)
    then mret (default VNone success)
    else
      result_cls ← or_raise AttributeError (class_of result);
      thrift_spec ← get_thrift_spec result_cls;
      if Nat.eqb (size thrift_spec) 0 then mret VNone
      else
        d ← or_raise AttributeError (obj_dict w result);
        match list_find (λ kv, kv.1 ≠ "success" ∧ truthy kv.2 = true) d with
        | Some (_, (_, v)) => py_raise v
        | None =>
            if hasattr result "success"
            then
              e ← instantiate cls_TApplicationException
                    [VInt TApplicationException.MISSING_RESULT] [];
              py_raise e
            else mret VNone
        end.

  (** [TClient._recv(self, _api)] *)
Definition _recv (self : TClient_obj) (_api : string) : M value :=
    '(fname, mtype, rseqid) ← read_message_begin;
    if Z.eqb mtype TMessageType.EXCEPTION then
      x ← instantiate cls_TApplicationException [] [];
      x ← read_struct x;
      _ ← read_message_end;
      py_raise x
    else
      result_cls ← service_getattr (_service self) (_api +:+ "_result");
      result ← instantiate result_cls [] [];
      result ← read_struct result;
      _ ← read_message_end;
      _recv_result result.

  (** [TClient._req(self, _api, *args, **kwargs)] *)
Definition _req (self : TClient_obj) (_api : string) (args : list value)
      (kwargs : list (string * value)) : M value :=
    args_cls ← service_getattr (_service self) (_api +:+ "_args");
    thrift_spec ← get_thrift_spec args_cls;
    let _kw := args2kwargs thrift_spec args in
    let kwargs := dict_update kwargs _kw in
    result_cls ← service_getattr (_service self) (_api +:+ "_result");
    _ ← _send self _api kwargs;
    oneway ← get_oneway result_cls;
    if negb oneway then _recv self _api else mret VNone.

  (** [client.<api>(...)]: [__getattr__] hands out
      [functools.partial(self._req, _api)] for a declared method. *)
Definition call (self : TClient_obj) (_api : string) (args : list value)
      (kwargs : list (string * value)) : M value :=
    if bool_decide (_api ∈ thrift_services (_service self))
    then _req self _api args kwargs
    else raise_py AttributeError.

End TClient.

(** ** The server processor *)

(** A handler object: the methods it exposes.  A method receives the
    positional arguments and returns a value or raises an exception. *)
Definition handler := string → option (list value → outcome value).

Record TProcessor_obj := {
  p_service : service;
  p_handler : handler;
}.

(** [for x in l: ys.append(f(x))] *)
Fixpoint mapM {A B} (f : A → M B) (l : list A) : M (list B) :=
  match l with
  | [] => mret []
  | x :: r => y ← f x; ys ← mapM f r; mret (y :: ys)
  end.

(** A computation that ends the way [o] says. *)
Definition finish {A} (o : outcome A) : M A := λ w, (o, w).

(** The closure [call] built by [process_in]:
    [f = getattr(handler, api)], then [f] applied to the values
    [args.__dict__[k] for k in api_args]. *)
Definition make_call (h : handler) (api : string) (args : value)
    (api_args : list string) : M value :=
  f ← or_raise AttributeError (h api);
  w ← get_world;
  d ← or_raise AttributeError (obj_dict w args);
  vals ← mapM (λ k, or_raise KeyError (assoc_get k d)) api_args;
  _ ← modify (set_calls (λ l, l ++ [(api, vals)]));
  finish (f vals).

(** The decoding and dispatch both [process_in] methods share once the
    service and handler are known. *)
Definition decode_call (svc : service) (h : handler) (api : string)
    (seqid : Z) : M (string * Z * value * option (M value)) :=
  args_cls ← service_getattr svc (api +:+ "_args");
  args ← instantiate args_cls [] [];
  args ← read_struct args;
  _ ← read_message_end;
  result_cls ← service_getattr svc (api +:+ "_result");
  result ← instantiate result_cls [] [];
  args_cls' ← or_raise AttributeError (class_of args);
  thrift_spec ← get_thrift_spec args_cls';
  let api_args := field_names thrift_spec in
  mret (api, seqid, result, Some (make_call h api args api_args)).

(** The reply both [process_in] methods prepare for a request they cannot
    route. *)
Definition unknown_method (api : string) (seqid : Z)
    : M (string * Z * value * option (M value)) :=
  _ ← skip TType.STRUCT;
  _ ← read_message_end;
  e ← instantiate cls_TApplicationException
        [VInt TApplicationException.UNKNOWN_METHOD] [];
  mret (api, seqid, e, None).

(** A step that cannot touch the object [o]. *)
Definition keeping {A} (o : value) (m : M A)
    : world → outcome A * value * world := λ w,
  let '(r, w') := m w in (r, o, w').

(** The caller goes on with the object a mutating call has left. *)
Definition updated (m : world → outcome unit * value * world) : M value := λ w,
  match m w with
  | (Ret _, o, w') => (Ret o, w')
  | (Raise x, _, w') => (Raise x, w')
  end.

Module TProcessor.

  (** [TProcessor.process_in(self, iprot)] *)
Definition process_in (self : TProcessor_obj)
      : M (string * Z * value * option (M value)) :=
    '(api, type, seqid) ← read_message_begin;
    if negb (bool_decide (api ∈ thrift_services (p_service self)))
    then unknown_method api seqid
    else decode_call (p_service self) (p_handler self) api seqid.

  (** [TProcessor.send_exception(self, oprot, api, exc, seqid)] *)
Definition send_exception (api : string) (exc : value) (seqid : Z) : M unit :=
    _ ← write_message_begin api TMessageType.EXCEPTION seqid;
    _ ← write_struct exc;
    _ ← write_message_end;
    flush.

  (** [TProcessor.send_result(self, oprot, api, result, seqid)] *)
Definition send_result (api : string) (result : value) (seqid : Z) : M unit :=
    _ ← write_message_begin api TMessageType.REPLY seqid;
    _ ← write_struct result;
    _ ← write_message_end;
    flush.

  (** The loop of [handle_exception] over [sorted(result.thrift_spec)];
      running off the end is the [else: raise] of the [for].  [result] is
      mutated in place, so the loop hands back the struct as it leaves it,
      whether it returns or raises. *)
Fixpoint handle_exception_loop (spec : gmap Z field_spec) (e result : value)
      (keys : list Z) : world → outcome unit * value * world :=
    match keys with
    | [] => λ w, (Raise e, result, w)
    | k :: ks =>
        match spec !! k with
        | None => keeping result (raise_py KeyError)
        | Some (Spec3 _ name _) =>
            if String.eqb name "success"
            then handle_exception_loop spec e result ks
            else keeping result (raise_py ValueError)
        | Some (Spec4 _ exc_name exc_cls _) =>
            if String.eqb exc_name "success"
            then handle_exception_loop spec e result ks
            else λ w,
              match isinstance_value e exc_cls w with
              | (Ret true, w') =>
                  match setattr result exc_name e w' with
                  | (Ret result', w'') => (Ret tt, result', w'')
                  | (Raise x, w'') => (Raise x, result, w'')
                  end
              | (Ret false, w') => handle_exception_loop spec e result ks w'
              | (Raise x, w') => (Raise x, result, w')
              end
        end
    end.

  (** [TProcessor.handle_exception(self, e, result)] *)
Definition handle_exception (e result : value)
      : world → outcome unit * value * world := λ w,
    match class_of result ≫= class_attr c_thrift_spec w with
    | None => keeping result (raise_py AttributeError) w
    | Some spec => handle_exception_loop spec e result (sorted_keys spec) w
    end.

  (** [TProcessor.process], over the [process_in] of [type(self)]. *)
Definition process_with
      (process_in : M (string * Z * value * option (M value))) : M unit :=
    '(api, seqid, result, call) ← process_in;
    w ← get_world;
    if isinstance w result cls_TApplicationException
    then send_exception api result seqid
    else
      result ← try_except
        (v ← match call with
             | Some c => c
             | None => raise_py TypeError
             end;
         setattr result "success" v)
        (λ e, updated (handle_exception e result));
      result_cls ← or_raise AttributeError (class_of result);
      oneway ← get_oneway result_cls;
      if negb oneway then send_result api result seqid else mret tt.

  (** [TProcessor.process(self, iprot, oprot)] *)
Definition process (self : TProcessor_obj) : M unit :=
    process_with (process_in self).

End TProcessor.

(** ** The multiplexed processor *)

Record TMultiplexedProcessor_obj := {
  processors : list (string * TProcessor_obj);
}.

Module TMultiplexedProcessor.

Definition SEPARATOR : Ascii.ascii := ":"%char.

  (** [TMultiplexedProcessor.__init__(self)] *)
Definition __init__ : TMultiplexedProcessor_obj := {| processors := [] |}.

  (** [TMultiplexedProcessor.register_processor(self, service_name, processor)] *)
Definition register_processor (self : TMultiplexedProcessor_obj)
      (service_name : string) (processor : TProcessor_obj)
      : M TMultiplexedProcessor_obj :=
    if bool_decide (is_Some (assoc_get service_name (processors self)))
    then
      e ← instantiate cls_TApplicationException []
            [("type", VInt TApplicationException.INTERNAL_ERROR);
             ("message", VStr ("processor for `" +:+ service_name +:+
                               "` already registered"))];
      py_raise e
    else
      mret {| processors := assoc_set service_name processor (processors self) |}.

  (** [TMultiplexedProcessor.process_in(self, iprot)] *)
Definition process_in (self : TMultiplexedProcessor_obj)
      : M (string * Z * value * option (M value)) :=
    '(api, type, seqid) ← read_message_begin;
    if negb (Z.eqb type TMessageType.CALL || Z.eqb type TMessageType.ONEWAY)
    then
      e ← instantiate cls_TException
            [VStr "TMultiplex protocol only supports CALL & ONEWAY"] [];
      py_raise e
    else if negb (contains_char SEPARATOR api)
    then
      e ← instantiate cls_TException
            [VStr ("Service name not found in message. " +:+
                   "You should use TMultiplexedProtocol in client.")] [];
      py_raise e
    else
      match split_on SEPARATOR api with
      | [service_name; api] =>
          match assoc_get service_name (processors self) with
          | None => unknown_method api seqid
          | Some proc => decode_call (p_service proc) (p_handler proc) api seqid
          end
      | _ => raise_py ValueError
      end.

  (** [process] is inherited from [TProcessor]. *)
Definition process (self : TMultiplexedProcessor_obj) : M unit :=
    TProcessor.process_with (process_in self).

End TMultiplexedProcessor.

(** ** A schema to run the code on

    The address book of the test-suite, loaded twice without slots (classes
    14 and 15) and twice with slots (classes 16 and 17), one declared
    exception, and a service with a two-way and a oneway method. *)

Definition mk_struct (name module : string) (mro : list cid)
    (slots : option (list string)) (default_spec : list (string * value))
    (thrift_spec : gmap Z field_spec) (oneway : option bool) : class :=
  {| c_name := name; c_module := module; c_mro := mro; c_slots := slots;
     c_init := Some (init_func_generator default_spec);
     c_default_spec := Some default_spec;
     c_thrift_spec := Some thrift_spec; c_ttype := Some TType.STRUCT;
     c_tspec := Some []; c_oneway := oneway |}.

Definition cls_Person : cid := 14.
Definition cls_Person_again : cid := 15.
Definition cls_SPerson : cid := 16.
Definition cls_SPerson_again : cid := 17.
Definition cls_PersonNotExistsError : cid := 18.
Definition cls_getPerson_args : cid := 19.
Definition cls_getPerson_result : cid := 20.
Definition cls_ping_args : cid := 21.
Definition cls_ping_result : cid := 22.

Definition name_spec : gmap Z field_spec :=
  <[1%Z := Spec3 TType.STRING "name" false]> ∅.

Definition example_classes : list class := builtin_classes ++
  [ mk_struct "Person" "addressbook_thrift" [14; 3; 0] None
      [("name", VNone)] name_spec None;
    mk_struct "Person" "addressbook_thrift" [15; 3; 0] None
      [("name", VNone)] name_spec None;
    mk_struct "Person" "slots_thrift" [16; 4; 0] (Some ["name"])
      [("name", VNone)] name_spec None;
    mk_struct "Person" "slots_thrift" [17; 4; 0] (Some ["name"])
      [("name", VNone)] name_spec None;
    mk_struct "PersonNotExistsError" "addressbook_thrift"
      [18; 5; 3; 2; 1; 0] None [("message", VNone)]
      (<[1%Z := Spec3 TType.STRING "message" false]> ∅) None;
    mk_struct "getPerson_args" "addressbook_thrift" [19; 3; 0] None
      [("name", VNone)] name_spec None;
    mk_struct "getPerson_result" "addressbook_thrift" [20; 3; 0] None
      [("success", VNone); ("e", VNone)]
      (<[0%Z := Spec4 TType.STRUCT "success" (VClass 14) false]>
       (<[1%Z := Spec4 TType.STRUCT "e" (VClass 18) false]> ∅)) (Some false);
    mk_struct "ping_args" "addressbook_thrift" [21; 3; 0] None
      [("note", VNone)] (<[1%Z := Spec3 TType.STRING "note" false]> ∅) None;
    mk_struct "ping_result" "addressbook_thrift" [22; 3; 0] None
      [("success", VNone)]
      (<[0%Z := Spec3 TType.STRING "success" false]> ∅) (Some true) ].

Definition example_world : world :=
  {| w_classes := example_classes; w_cache := ∅; w_next_id := 0;
     w_input := []; w_iprot := []; w_oprot := []; w_calls := [] |}.

Definition example_service : service :=
  {| thrift_services := ["getPerson"; "ping"];
     service_attrs :=
       [("getPerson_args", cls_getPerson_args);
        ("getPerson_result", cls_getPerson_result);
        ("ping_args", cls_ping_args);
        ("ping_result", cls_ping_result)] |}.

(** A handler whose [getPerson] raises the declared exception and whose
    [ping] returns nothing. *)
Definition example_handler : handler := λ api,
  if String.eqb api "getPerson"
  then Some (λ _, Raise (VObj 200 cls_PersonNotExistsError [("message", VNone)]))
  else if String.eqb api "ping" then Some (λ _, Ret VNone)
  else None.

Definition example_processor : TProcessor_obj :=
  {| p_service := example_service; p_handler := example_handler |}.

Definition request (name : string) (mtype : Z) (fields : list (string * value))
    : message :=
  {| m_name := name; m_type := mtype; m_seqid := 7; m_fields := fields |}.

Definition with_input (l : list message) (w : world) : world :=
  set_input (λ _, l) w.

(** ** Vocabulary of the statements *)

(** The classes of this module are in place in the class table. *)
Definition builtins_ok (w : world) : Prop :=
  ∃ rest, w_classes w = builtin_classes ++ rest.

(** [TPayloadMeta.__call__] takes [c] to the registry: its first base in
    the MRO is [TSPayload]. *)
Definition registry_class (w : world) (c : cid) : Prop :=
  mro w c !! 1 = Some cls_TSPayload.


(** An exception-typed payload class: its MRO reaches [TException] before
    any other class that defines [__eq__] and [__hash__]. *)
Definition exception_payload (w : world) (c : cid) : Prop :=
  ∃ pre post, mro w c = pre ++ cls_TException :: post ∧
              Forall (λ k, own_eq k = None) pre.

(** Every entry of the registry is filed under the key of its own class. *)
Definition cache_ok (w : world) : Prop :=
  ∀ key r, w_cache w !! key = Some r →
    ∃ cl, w_classes w !! r = Some cl ∧ c_module cl +:+ ":" +:+ c_name cl = key.

(** [m] moves every world along [R]. *)
Definition steps {A} (R : relation world) (m : M A) : Prop :=
  ∀ w, R w (m w).2.

(** The part [proj] of the world is left as it was. *)
Definition same {B} (proj : world → B) : relation world :=
  λ w w', proj w' = proj w.

(** The sequence ids of the messages begun on the output protocol. *)
Definition seqids (l : list event) : list Z :=
  omap (λ e, match e with WriteMessageBegin _ _ s => Some s | _ => None end) l.

(** A caller issues [calls] one after the other through one client,
    whatever each of them returns or raises. *)
Fixpoint run_calls (self : TClient_obj)
    (calls : list (string * list value * list (string * value))) (w : world)
    : world :=
  match calls with
  | [] => w
  | (api, args, kwargs) :: r =>
      run_calls self r (TClient.call self api args kwargs w).2
  end.

(** Whatever was written on the output protocol carries sequence id [s]. *)
Definition sends (s : Z) : relation world := λ w w',
  ∃ evs, w_oprot w' = w_oprot w ++ evs ∧ Forall (λ z, z = s) (seqids evs).

(** Everything but the id counter. *)
Definition static (w : world) :=
  (w_classes w, w_cache w, w_input w, w_iprot w, w_oprot w, w_calls w).

(** The protocol side and the handler log. *)
Definition io (w : world) := (w_input w, w_iprot w, w_oprot w, w_calls w).

(** The class table has only gained classes, none of them marked oneway. *)
Definition grows : relation world := λ w w',
  ∃ new, w_classes w' = w_classes w ++ new ∧
         Forall (λ cl, c_oneway cl = None) new.

(** What was read, and what was written and invoked. *)
Definition read_side (w : world) := (w_input w, w_iprot w).
Definition write_side (w : world) := (w_oprot w, w_calls w).

(** A result [thrift_spec] as a throws clause produces it: every field but
    [success] is a 4-tuple whose third component is an exception class. *)
Definition declared_throws (spec : gmap Z field_spec) : Prop :=
  ∀ k f, spec !! k = Some f → spec_name f ≠ "success" →
    ∃ t n c r, f = Spec4 t n (VClass c) r.

(** The raised exception [e] matches no declared field among [keys]. *)
Definition no_match (w : world) (spec : gmap Z field_spec) (e : value)
    (keys : list Z) : Prop :=
  ∀ k t n c r, k ∈ keys → spec !! k = Some (Spec4 t n (VClass c) r) →
    n ≠ "success" → isinstance w e c = false.




(** A stand-in for the built-in [repr] on the values of the examples. *)
Definition example_repr (v : value) : string :=
  match v with
  | VStr s => "'" +:+ s +:+ "'"
  | VNone => "None"
  | _ => "<object>"
  end.



(** The property [P] of the world survives the step. *)
Definition keeps (P : world → Prop) : relation world := λ w w', P w → P w'.


(** * Proofs *)

(** ** Running monadic code *)

Ltac unfold_M :=
  unfold mbind, M_bind, mret, M_ret, raise_py, or_raise, lift, raise,
    get_world, modify, fresh_id, finish in *.

#[export] Instance same_preorder {B} (proj : world → B) : PreOrder (same proj).
Proof.
  split; [by intros w | intros w1 w2 w3 H1 H2; unfold same in *; congruence].
Qed.

Section Steps.
Context (R : relation world) `{!PreOrder R}.

Lemma steps_ret {A} (a : A) : steps R (mret a).
  Proof. intros w. cbn. reflexivity. Qed.

Lemma steps_raise {A} (e : value) : steps R (@raise A e).
  Proof. intros w. cbn. reflexivity. Qed.

Lemma steps_get_world : steps R get_world.
  Proof. intros w. cbn. reflexivity. Qed.

Lemma steps_finish {A} (o : outcome A) : steps R (finish o).
  Proof. intros w. cbn. reflexivity. Qed.

Lemma steps_bind {A B} (m : M A) (f : A → M B) :
    steps R m → (∀ a, steps R (f a)) → steps R (mbind f m).
  Proof.
    intros Hm Hf w. unfold mbind, M_bind. specialize (Hm w).
    destruct (m w) as [[a | e] w']; cbn in *; [| done].
    etrans; [exact Hm | apply Hf].
  Qed.

Lemma steps_modify (f : world → world) :
    (∀ w, R w (f w)) → steps R (modify f).
  Proof. intros H w. apply H. Qed.

Lemma steps_fresh_id : (∀ w, R w (set_next_id S w)) → steps R fresh_id.
  Proof. intros H w. apply H. Qed.

Lemma steps_raise_py {A} (k : pyerr) :
    (∀ w, R w (set_next_id S w)) → steps R (@raise_py A k).
  Proof.
    intros H. unfold raise_py. apply steps_bind; [by apply steps_fresh_id |].
    intros. apply steps_raise.
  Qed.

Lemma steps_or_raise {A} (k : pyerr) (o : option A) :
    (∀ w, R w (set_next_id S w)) → steps R (or_raise k o).
  Proof.
    intros H. destruct o; [apply steps_ret | by apply steps_raise_py].
  Qed.

Lemma steps_lift {A} (r : checked A) :
    (∀ w, R w (set_next_id S w)) → steps R (lift r).
  Proof.
    intros H. destruct r; [apply steps_ret | by apply steps_raise_py].
  Qed.

Lemma steps_foldM {A B} (f : A → B → M A) (l : list B) (a : A) :
    (∀ a b, steps R (f a b)) → steps R (foldM f a l).
  Proof.
    intros Hf. revert a. induction l as [|x l IH]; intros a; cbn.
    - apply steps_ret.
    - apply steps_bind; [apply Hf | intros; apply IH].
  Qed.

Lemma steps_mapM {A B} (f : A → M B) (l : list A) :
    (∀ a, steps R (f a)) → steps R (mapM f l).
  Proof.
    intros Hf. induction l as [|x l IH]; cbn.
    - apply steps_ret.
    - apply steps_bind; [apply Hf | intros].
      apply steps_bind; [apply IH | intros; apply steps_ret].
  Qed.

Lemma steps_try_except {A} (body : M A) (handler : value → M A) :
    steps R body → (∀ e, steps R (handler e)) → steps R (try_except body handler).
  Proof.
    intros Hb Hh w. unfold try_except. specialize (Hb w).
    destruct (body w) as [[a | e] w']; cbn in *; [done |].
    destruct (class_of e) as [c|]; [| done].
    destruct (is_subclass w' c cls_Exception); [| done].
    etrans; [exact Hb | apply Hh].
  Qed.
End Steps.


Ltac steps_atom :=
  solve [ intros; reflexivity
        | intros; unfold same; cbn; reflexivity
        | intros; eauto with steps_atoms ].

Ltac steps_inst := try (apply _).

Ltac steps_step :=
  first
    [ solve [eauto with steps]
    | apply steps_ret; steps_inst | apply steps_raise; steps_inst
    | apply steps_get_world; steps_inst
    | apply steps_finish; steps_inst
    | apply steps_bind; steps_inst; [| intros]
    | apply steps_modify; steps_atom
    | apply steps_fresh_id; steps_atom
    | apply steps_raise_py; steps_inst; steps_atom
    | apply steps_or_raise; steps_inst; steps_atom
    | apply steps_lift; steps_inst; steps_atom
    | apply steps_foldM; steps_inst; intros
    | apply steps_mapM; steps_inst; intros
    | apply steps_try_except; steps_inst; [| intros] ].

Ltac steps_tac := repeat (intros; first [steps_step | case_match]).

Create HintDb steps.
Create HintDb steps_atoms.

(** ** What allocation leaves alone *)

Lemma static_io w w' : same static w w' → same io w w'.
Proof. unfold same, static, io. intros [= _ _ H1 H2 H3 H4]. congruence. Qed.

Lemma steps_weaken {A} (R R' : relation world) (m : M A) :
  (∀ w w', R w w' → R' w w') → steps R m → steps R' m.
Proof. intros H Hm w. apply H, Hm. Qed.

Lemma setattr_static o k v : steps (same static) (setattr o k v).
Proof. unfold setattr. steps_tac. Qed.
#[export] Hint Resolve setattr_static : steps.

Lemma assign_all_static o l : steps (same static) (assign_all o l).
Proof. unfold assign_all. steps_tac. Qed.
#[export] Hint Resolve assign_all_static : steps.

Lemma call_init_static impl self args kw :
  steps (same static) (call_init impl self args kw).
Proof. unfold call_init. steps_tac. Qed.
#[export] Hint Resolve call_init_static : steps.

Lemma type_call_static cls args kw :
  steps (same static) (type___call__ cls args kw).
Proof. unfold type___call__. steps_tac. Qed.
#[export] Hint Resolve type_call_static : steps.

Lemma isinstance_value_static a b : steps (same static) (isinstance_value a b).
Proof. unfold isinstance_value. steps_tac. Qed.
#[export] Hint Resolve isinstance_value_static : steps.

Lemma steps_alloc_class (R : relation world) mk :
  (∀ w f, R w (set_classes f w)) → steps R (alloc_class mk).
Proof. intros H w. apply H. Qed.

Lemma synthesize_io cls : steps (same io) (TPayloadMeta.synthesize cls).
Proof.
  unfold TPayloadMeta.synthesize, update_class.
  repeat (intros; first [apply steps_alloc_class; steps_atom | steps_step | case_match]).
Qed.
#[export] Hint Resolve synthesize_io : steps.

Lemma type_call_io cls args kw : steps (same io) (type___call__ cls args kw).
Proof. eapply steps_weaken; [apply static_io | apply type_call_static]. Qed.
#[export] Hint Resolve type_call_io : steps.

Lemma meta_call_io cls args kw :
  steps (same io) (TPayloadMeta.__call__ cls args kw).
Proof. unfold TPayloadMeta.__call__. steps_tac. Qed.
#[export] Hint Resolve meta_call_io : steps.

Lemma instantiate_io cls args kw : steps (same io) (instantiate cls args kw).
Proof. unfold instantiate. steps_tac. Qed.
#[export] Hint Resolve instantiate_io : steps.

Lemma py_raise_io {A} v : steps (same io) (@py_raise A v).
Proof. unfold py_raise. steps_tac. Qed.
#[export] Hint Resolve py_raise_io : steps.

Lemma setattr_io o k v : steps (same io) (setattr o k v).
Proof. eapply steps_weaken; [apply static_io | apply setattr_static]. Qed.
#[export] Hint Resolve setattr_io : steps.

Lemma assign_all_io o l : steps (same io) (assign_all o l).
Proof. eapply steps_weaken; [apply static_io | apply assign_all_static]. Qed.
#[export] Hint Resolve assign_all_io : steps.


(** ** The client: sequence ids *)

#[export] Instance sends_preorder s : PreOrder (sends s).
Proof.
  split.
  - intros w. exists []. by rewrite app_nil_r.
  - intros w1 w2 w3 (e1 & H1 & F1) (e2 & H2 & F2). exists (e1 ++ e2).
    split; [by rewrite H2, H1, app_assoc |].
    unfold seqids in *. rewrite omap_app. by apply Forall_app.
Qed.

Lemma sends_quiet s w w' : w_oprot w' = w_oprot w → sends s w w'.
Proof. intros H. exists []. by rewrite app_nil_r. Qed.
#[export] Hint Resolve sends_quiet : steps_atoms.

Lemma io_sends s w w' : same io w w' → sends s w w'.
Proof. unfold same, io. intros [= _ _ H _]. by apply sends_quiet. Qed.

Lemma steps_io_sends {A} s (m : M A) : steps (same io) m → steps (sends s) m.
Proof. apply steps_weaken, io_sends. Qed.

Lemma instantiate_sends s cls args kw : steps (sends s) (instantiate cls args kw).
Proof. apply steps_io_sends, instantiate_io. Qed.
Lemma assign_all_sends s o l : steps (sends s) (assign_all o l).
Proof. apply steps_io_sends, assign_all_io. Qed.
Lemma py_raise_sends {A} s v : steps (sends s) (@py_raise A v).
Proof. apply steps_io_sends, py_raise_io. Qed.
#[export] Hint Resolve instantiate_sends assign_all_sends py_raise_sends : steps.

Lemma log_oprot_sends s e :
  Forall (λ z, z = s) (seqids [e]) → steps (sends s) (log_oprot e).
Proof. intros H w. by exists [e]. Qed.

Lemma send_sends self api kwargs :
  steps (sends (_seqid self)) (TClient._send self api kwargs).
Proof.
  unfold TClient._send, write_message_begin, write_struct, write_message_end,
    flush, service_getattr.
  repeat (intros; first [ apply log_oprot_sends; by repeat constructor
                        | steps_step | case_match ]).
Qed.
#[export] Hint Resolve send_sends : steps.

Lemma recv_sends s self api : steps (sends s) (TClient._recv self api).
Proof.
  unfold TClient._recv, TClient._recv_result, read_message_begin, read_struct,
    read_message_end, log_iprot, service_getattr, get_thrift_spec.
  steps_tac.
Qed.
#[export] Hint Resolve recv_sends : steps.

Lemma call_sends self api args kwargs :
  steps (sends (_seqid self)) (TClient.call self api args kwargs).
Proof.
  unfold TClient.call, TClient._req, service_getattr, get_thrift_spec, get_oneway.
  steps_tac.
Qed.

Lemma run_calls_sends self calls w :
  sends (_seqid self) w (run_calls self calls w).
Proof.
  revert w. induction calls as [|[[api args] kw] calls IH]; intros w; cbn.
  - reflexivity.
  - etrans; [apply call_sends | apply IH].
Qed.

(** C3 (as the code has it): a client starts with sequence id 0 and never
    changes it, so every request message of every call issued through one
    client instance is begun with sequence id 0. *)
Theorem client_seqid_constant (service : service)
    (calls : list (string * list value * list (string * value))) (w : world) :
  _seqid (TClient.__init__ service) = 0%Z ∧
  ∃ evs, w_oprot (run_calls (TClient.__init__ service) calls w) = w_oprot w ++ evs ∧
         Forall (λ z, z = 0%Z) (seqids evs).
Proof. split; [done |]. apply (run_calls_sends (TClient.__init__ service)). Qed.

(** C3 fails as stated: two calls through one client are both sent with
    sequence id 0, so the second is not greater than the first. *)
Lemma client_seqid_not_increasing :
  let w := run_calls (TClient.__init__ example_service)
             [("ping", [VStr "a"], []); ("ping", [VStr "b"], [])] example_world in
  seqids (w_oprot w) = [0%Z; 0%Z] ∧
  ¬ (∀ i j a b, i < j → seqids (w_oprot w) !! i = Some a →
                seqids (w_oprot w) !! j = Some b → (a < b)%Z).
Proof.
  cbn zeta. split; [vm_compute; reflexivity |].
  intros H. specialize (H 0 1 0%Z 0%Z). 
  assert (0 < 0)%Z; [| lia].
  apply H; [lia | vm_compute; reflexivity | vm_compute; reflexivity].
Qed.


(** ** The processor: unknown methods *)

(** C7: for a request whose method name is not declared, the processor
    skips the struct payload, consumes the message end, invokes no handler
    and sends one message framed EXCEPTION.  The struct it sends is the
    object [TApplicationException(UNKNOWN_METHOD)] evaluates to, and
    [TPayloadMeta.__call__] passes the class itself as first argument to
    the constructor: its [type] is the class object and its [message] is 1,
    not [type = UNKNOWN_METHOD]. *)
Theorem unknown_method_reply (self : TProcessor_obj) (w : world) (m : message)
    (rest : list message) :
  builtins_ok w →
  w_input w = m :: rest →
  m_name m ∉ thrift_services (p_service self) →
  ∃ w',
    TProcessor.process self w = (Ret tt, w') ∧
    w_iprot w' = w_iprot w ++ [ReadMessageBegin; SkipField TType.STRUCT; ReadMessageEnd] ∧
    w_input w' = rest ∧
    w_calls w' = w_calls w ∧
    w_oprot w' = w_oprot w ++
      [WriteMessageBegin (m_name m) TMessageType.EXCEPTION (m_seqid m);
       WriteStruct (VObj (w_next_id w) cls_TApplicationException
                      [("type", VClass cls_TApplicationException);
                       ("message", VInt TApplicationException.UNKNOWN_METHOD)]);
       WriteMessageEnd; Flush].
Proof.
  intros [cl Hcl] Hin Hbad.
  destruct w as [classes cache nid input ip op calls]; cbn in *. subst.
  unfold TProcessor.process, TProcessor.process_with, TProcessor.process_in,
    read_message_begin, log_iprot.
  unfold_M. cbn. rewrite bool_decide_eq_false_2 by done. cbn.
  eexists. split; [reflexivity |]. cbn.
  by rewrite <- !app_assoc.
Qed.

Lemma unknown_method_reply_witness :
  ∃ w',
    TProcessor.process example_processor
      (with_input [request "nope" TMessageType.CALL []] example_world) = (Ret tt, w') ∧
    w_oprot w' =
      [WriteMessageBegin "nope" TMessageType.EXCEPTION 7;
       WriteStruct (VObj 0 cls_TApplicationException
                      [("type", VClass cls_TApplicationException);
                       ("message", VInt 1)]);
       WriteMessageEnd; Flush].
Proof.
  destruct (unknown_method_reply example_processor
              (with_input [request "nope" TMessageType.CALL []] example_world)
              (request "nope" TMessageType.CALL []) [])
    as (w' & H & _ & _ & _ & Ho).
  - by exists (drop 14 example_classes).
  - reflexivity.
  - cbn. rewrite !elem_of_cons, elem_of_nil. intros [H | [H | []]]; discriminate.
  - exists w'. split; [exact H | exact Ho].
Defined.


(** ** The registry *)

Lemma alter_snoc {A} (f : A → A) (l : list A) (x : A) :
  alter f (length l) (l ++ [x]) = l ++ [f x].
Proof.
  replace (length l) with (length l + 0) by lia. by rewrite alter_app_r.
Qed.

Lemma synthesize_spec cls w :
  match TPayloadMeta.synthesize cls w with
  | (Ret r, w') =>
      ∃ cl, w_classes w !! cls = Some cl ∧
        w_cache w' !! TPayloadMeta.cache_key cl = Some r ∧
        ((w_cache w !! TPayloadMeta.cache_key cl = Some r ∧ w' = w) ∨
         (w_cache w !! TPayloadMeta.cache_key cl = None ∧
          r = length (w_classes w) ∧
          ∃ new ds, w_classes w' = w_classes w ++ [new] ∧
            w_cache w' = <[TPayloadMeta.cache_key cl := r]> (w_cache w) ∧
            c_module new +:+ ":" +:+ c_name new = TPayloadMeta.cache_key cl ∧
            c_oneway new = None ∧ c_mro new = r :: c_mro cl ∧
            class_attr c_default_spec w cls = Some ds ∧
            c_init new = Some (InitGenerated ds) ∧
            c_slots new = Some ds.*1 ∧
            w_next_id w' = w_next_id w ∧ io w' = io w))
  | (Raise e, w') =>
      w_cache w' = w_cache w ∧
      ∃ new, w_classes w' = w_classes w ++ new ∧
             Forall (λ cl, c_oneway cl = None) new
  end.
Proof.
  destruct w as [classes cache nid input ip op calls].
  unfold TPayloadMeta.synthesize, alloc_class, update_class. unfold_M. cbn.
  destruct (classes !! cls) as [cl|] eqn:Hcl; cbn.
  2: { split; [done |]. exists []. by rewrite app_nil_r. }
  destruct (class_attr c_default_spec _ cls) as [ds|] eqn:Hds; cbn.
  2: { split; [done |]. exists []. by rewrite app_nil_r. }
  fold (TPayloadMeta.cache_key cl).
  destruct (cache !! TPayloadMeta.cache_key cl) as [r|] eqn:Hc; cbn.
  { exists cl. split; [done |]. split; [done |]. by left. }
  destruct (class_attr c_ttype _ cls) as [tt|] eqn:Htt; cbn.
  2: { split; [done |]. cbn. eexists [_]. split; [reflexivity |]. by repeat constructor. }
  destruct (class_attr c_tspec _ cls) as [ts|] eqn:Hts; cbn.
  2: { split; [done |]. cbn. rewrite alter_snoc. eexists [_]. split; [reflexivity |].
       by repeat constructor. }
  destruct (class_attr c_thrift_spec _ cls) as [th|] eqn:Hth; cbn.
  2: { split; [done |]. cbn. rewrite !alter_snoc. eexists [_].
       split; [reflexivity |]. by repeat constructor. }
  exists cl. split; [done |]. cbn. rewrite lookup_insert_eq. split; [done |].
  right. split; [done |]. split; [done |]. rewrite !alter_snoc.
  eexists _, ds. split; [reflexivity |]. cbn. done.
Qed.

#[export] Instance grows_preorder : PreOrder grows.
Proof.
  split.
  - intros w. exists []. by rewrite app_nil_r.
  - intros w1 w2 w3 (n1 & H1 & F1) (n2 & H2 & F2). exists (n1 ++ n2).
    split; [by rewrite H2, H1, app_assoc | by apply Forall_app].
Qed.

Lemma grows_quiet w w' : w_classes w' = w_classes w → grows w w'.
Proof. intros H. exists []. by rewrite app_nil_r. Qed.
#[export] Hint Resolve grows_quiet : steps_atoms.

Lemma synthesize_grows cls : steps grows (TPayloadMeta.synthesize cls).
Proof.
  intros w. pose proof (synthesize_spec cls w) as H.
  destruct (TPayloadMeta.synthesize cls w) as [[r | e] w']; cbn.
  - destruct H as (cl & _ & _ & [[_ ->] | (_ & _ & new & ds & Hn & _ & _ & Ho & _)]).
    + reflexivity.
    + exists [new]. split; [done |]. by repeat constructor.
  - by destruct H as [_ H].
Qed.
#[export] Hint Resolve synthesize_grows : steps.

Lemma static_grows w w' : same static w w' → grows w w'.
Proof. unfold same, static. intros [= H _ _ _ _ _]. by apply grows_quiet. Qed.

Lemma type_call_grows cls args kw : steps grows (type___call__ cls args kw).
Proof. eapply steps_weaken; [apply static_grows | apply type_call_static]. Qed.
Lemma setattr_grows o k v : steps grows (setattr o k v).
Proof. eapply steps_weaken; [apply static_grows | apply setattr_static]. Qed.
Lemma assign_all_grows o l : steps grows (assign_all o l).
Proof. eapply steps_weaken; [apply static_grows | apply assign_all_static]. Qed.
#[export] Hint Resolve type_call_grows setattr_grows assign_all_grows : steps.

Lemma meta_call_grows cls args kw : steps grows (TPayloadMeta.__call__ cls args kw).
Proof. unfold TPayloadMeta.__call__. steps_tac. Qed.
#[export] Hint Resolve meta_call_grows : steps.

Lemma instantiate_grows cls args kw : steps grows (instantiate cls args kw).
Proof. unfold instantiate. steps_tac. Qed.
#[export] Hint Resolve instantiate_grows : steps.

Lemma py_raise_grows {A} v : steps grows (@py_raise A v).
Proof. unfold py_raise. steps_tac. Qed.
#[export] Hint Resolve py_raise_grows : steps.

Lemma grows_lookup w w' c cl :
  grows w w' → w_classes w !! c = Some cl → w_classes w' !! c = Some cl.
Proof. intros (new & -> & _) H. by apply lookup_app_l_Some. Qed.

Lemma grows_mro w w' c cl :
  grows w w' → w_classes w !! c = Some cl → mro w' c = mro w c.
Proof.
  intros Hg H. unfold mro. by rewrite (grows_lookup _ _ _ _ Hg H), H.
Qed.

Lemma grows_oneway w w' c b :
  grows w w' → class_attr c_oneway w c = Some b →
  class_attr c_oneway w' c = Some b.
Proof.
  intros Hg H. unfold class_attr in *.
  destruct (w_classes w !! c) as [cl|] eqn:Hc.
  2: { unfold mro in H. by rewrite Hc in H. }
  rewrite (grows_mro _ _ _ _ Hg Hc). rewrite <- H. f_equal.
  apply list_omap_ext, Forall_Forall2_diag, Forall_forall. intros k _.
  destruct Hg as (new & -> & Hnew).
  destruct (w_classes w !! k) as [ck|] eqn:Hk.
  - by rewrite (lookup_app_l_Some _ _ _ _ Hk).
  - apply lookup_ge_None in Hk. rewrite lookup_app_r by done.
    destruct (new !! (k - length (w_classes w))) as [cn|] eqn:Hn; [| done].
    cbn. eapply Forall_lookup_1 in Hnew; [| exact Hn]. done.
Qed.


(** ** Oneway methods *)

Lemma bind_Ret_inv {A B} (m : M A) (f : A → M B) w b w' :
  (m ≫= f) w = (Ret b, w') →
  ∃ a w1, m w = (Ret a, w1) ∧ f a w1 = (Ret b, w').
Proof.
  unfold mbind, M_bind. destruct (m w) as [[a | e] w1]; [eauto | done].
Qed.

Lemma bind_unfold {A B} (m : M A) (f : A → M B) w :
  (m ≫= f) w = match m w with
               | (Ret a, w') => f a w'
               | (Raise e, w') => (Raise e, w')
               end.
Proof. reflexivity. Qed.

Lemma ret_unfold {A} (a : A) w : (mret a : M A) w = (Ret a, w).
Proof. reflexivity. Qed.

Ltac msimpl :=
  repeat first [ rewrite bind_unfold | rewrite ret_unfold
               | progress cbn [get_world or_raise lift raise] ].

Lemma io_read_side w w' : same io w w' → same read_side w w'.
Proof. unfold same, io, read_side. intros [= H1 H2 _ _]. congruence. Qed.
Lemma io_write_side w w' : same io w w' → same write_side w w'.
Proof. unfold same, io, write_side. intros [= _ _ H1 H2]. congruence. Qed.

Lemma instantiate_read_side cls args kw :
  steps (same read_side) (instantiate cls args kw).
Proof. eapply steps_weaken; [apply io_read_side | apply instantiate_io]. Qed.
Lemma assign_all_read_side o l : steps (same read_side) (assign_all o l).
Proof. eapply steps_weaken; [apply io_read_side | apply assign_all_io]. Qed.
Lemma instantiate_write_side cls args kw :
  steps (same write_side) (instantiate cls args kw).
Proof. eapply steps_weaken; [apply io_write_side | apply instantiate_io]. Qed.
Lemma assign_all_write_side o l : steps (same write_side) (assign_all o l).
Proof. eapply steps_weaken; [apply io_write_side | apply assign_all_io]. Qed.
Lemma setattr_write_side o k v : steps (same write_side) (setattr o k v).
Proof. eapply steps_weaken; [apply io_write_side | apply setattr_io]. Qed.
Lemma py_raise_write_side {A} v : steps (same write_side) (@py_raise A v).
Proof. eapply steps_weaken; [apply io_write_side | apply py_raise_io]. Qed.
#[export] Hint Resolve instantiate_read_side assign_all_read_side
  instantiate_write_side assign_all_write_side setattr_write_side
  py_raise_write_side : steps.

Lemma send_read_side self api kwargs :
  steps (same read_side) (TClient._send self api kwargs).
Proof.
  unfold TClient._send, write_message_begin, write_struct, write_message_end,
    flush, log_oprot, service_getattr.
  steps_tac.
Qed.

Lemma send_grows self api kwargs : steps grows (TClient._send self api kwargs).
Proof.
  unfold TClient._send, write_message_begin, write_struct, write_message_end,
    flush, log_oprot, service_getattr.
  steps_tac.
Qed.

Lemma get_oneway_true w c :
  class_attr c_oneway w c = Some true → get_oneway c w = (Ret true, w).
Proof. intros H. unfold get_oneway. unfold_M. by rewrite H. Qed.

Lemma req_oneway self api args kwargs w A R ts :
  assoc_get (api +:+ "_args") (service_attrs (_service self)) = Some A →
  class_attr c_thrift_spec w A = Some ts →
  assoc_get (api +:+ "_result") (service_attrs (_service self)) = Some R →
  class_attr c_oneway w R = Some true →
  TClient._req self api args kwargs w =
    match TClient._send self api (dict_update kwargs (args2kwargs ts args)) w with
    | (Ret _, w') => (Ret VNone, w')
    | (Raise e, w') => (Raise e, w')
    end.
Proof.
  intros HA Hts HR Hone.
  unfold TClient._req, service_getattr, get_thrift_spec.
  rewrite bind_unfold. rewrite HA. cbn [or_raise]. rewrite ret_unfold.
  rewrite !bind_unfold. cbn [get_world]. rewrite Hts. cbn [or_raise]. rewrite ret_unfold.
  rewrite bind_unfold. rewrite HR. cbn [or_raise]. rewrite ret_unfold.
  rewrite bind_unfold.
  pose proof (send_grows self api (dict_update kwargs (args2kwargs ts args)) w) as Hg.
  destruct (TClient._send self api _ w) as [[[] | e] w']; [| done].
  cbn in Hg. rewrite bind_unfold.
  by rewrite (get_oneway_true _ _ (grows_oneway _ _ _ _ Hg Hone)).
Qed.


Lemma set_attribute_class w o k v o' :
  set_attribute w o k v = Ok o' →
  class_of o' = class_of o ∧ id_of o' = id_of o.
Proof.
  destruct o; cbn; try done. case_match; [| done]. by intros [= <-].
Qed.

Lemma setattr_class o k v w o' w' :
  setattr o k v w = (Ret o', w') →
  class_of o' = class_of o ∧ id_of o' = id_of o.
Proof.
  unfold setattr. rewrite bind_unfold. cbn [get_world].
  destruct (set_attribute w o k v) as [o''|] eqn:H; cbn; [| done].
  intros [= <- _]. by eapply set_attribute_class.
Qed.

Lemma assign_all_class l : ∀ o w o' w',
  assign_all o l w = (Ret o', w') →
  class_of o' = class_of o ∧ id_of o' = id_of o.
Proof.
  unfold assign_all. induction l as [|[k v] l IH]; intros o w o' w'; cbn.
  - by intros [= <- _].
  - intros (o1 & w1 & H1 & H2)%bind_Ret_inv.
    apply setattr_class in H1 as [E1 E2]. apply IH in H2 as [-> ->]. done.
Qed.

Lemma call_init_class impl self args kw w o' w' :
  call_init impl self args kw w = (Ret o', w') →
  class_of o' = class_of self ∧ id_of o' = id_of self.
Proof.
  destruct impl; cbn.
  - destruct args, kw; cbn; try done. by intros [= <- _].
  - destruct kw; cbn; try done. by intros [= <- _].
  - intros (b & w1 & _ & H)%bind_Ret_inv. by eapply assign_all_class.
  - intros (b & w1 & _ & H)%bind_Ret_inv. by eapply assign_all_class.
Qed.

Lemma type_call_class cls args kw w v w' :
  type___call__ cls args kw w = (Ret v, w') →
  class_of v = Some cls ∧ id_of v = Some (w_next_id w).
Proof.
  unfold type___call__. msimpl. cbn [fresh_id].
  by intros H%call_init_class.
Qed.

(** [handle_exception] only allocates. *)
Lemma handle_exception_loop_static spec e result keys w :
  same static w (TProcessor.handle_exception_loop spec e result keys w).2.
Proof.
  revert w. induction keys as [|k ks IH]; intros w; cbn; [done |].
  assert (Hk : ∀ A (m : M A) w, steps (same static) m →
            same static w (keeping result m w).2).
  { intros A m w0 Hm. unfold keeping. specialize (Hm w0).
    by destruct (m w0). }
  destruct (spec !! k) as [[t n r | t n c r]|].
  - destruct (String.eqb n "success"); [apply IH |].
    apply Hk. apply steps_raise_py; [apply _ | done].
  - destruct (String.eqb n "success"); [apply IH |].
    pose proof (isinstance_value_static e c w) as H1.
    destruct (isinstance_value e c w) as [[[] | x] w1]; cbn in *.
    + pose proof (setattr_static result n e w1) as H2.
      destruct (setattr result n e w1) as [[r'|x] w2]; cbn in *;
        by etrans.
    + etrans; [exact H1 | apply IH].
    + done.
  - apply Hk. apply steps_raise_py; [apply _ | done].
Qed.

Lemma handle_exception_static e result w :
  same static w (TProcessor.handle_exception e result w).2.
Proof.
  unfold TProcessor.handle_exception.
  destruct (class_of result ≫= class_attr c_thrift_spec w).
  - apply handle_exception_loop_static.
  - unfold keeping.
    pose proof (steps_raise_py (A:=unit) (same static) AttributeError
                  (λ w, eq_refl) w) as H.
    by destruct (raise_py AttributeError w).
Qed.

Lemma updated_handle_exception_static e result :
  steps (same static) (updated (TProcessor.handle_exception e result)).
Proof.
  intros w. unfold updated.
  pose proof (handle_exception_static e result w) as H.
  by destruct (TProcessor.handle_exception e result w) as [[[] ?] ?].
Qed.
#[export] Hint Resolve updated_handle_exception_static : steps.

Lemma handle_exception_loop_class spec e result keys : ∀ w r' w',
  TProcessor.handle_exception_loop spec e result keys w = (Ret tt, r', w') →
  class_of r' = class_of result.
Proof.
  induction keys as [|k ks IH]; intros w r' w'; cbn; [done |].
  unfold keeping.
  destruct (spec !! k) as [[t n r | t n c r]|].
  - destruct (String.eqb n "success"); [apply IH |].
    cbn. done.
  - destruct (String.eqb n "success"); [apply IH |].
    destruct (isinstance_value e c w) as [[[] | x] w1]; cbn; [| apply IH | done].
    destruct (setattr result n e w1) as [[r''|x] w2] eqn:E; [| done].
    intros [= <- _]. by apply setattr_class in E as [-> _].
  - cbn. done.
Qed.

Lemma handle_exception_class e result w r' w' :
  TProcessor.handle_exception e result w = (Ret tt, r', w') →
  class_of r' = class_of result.
Proof.
  unfold TProcessor.handle_exception.
  destruct (class_of result ≫= class_attr c_thrift_spec w).
  - apply handle_exception_loop_class.
  - cbn. done.
Qed.


Lemma static_write_side w w' : same static w w' → same write_side w w'.
Proof. intros H. by apply io_write_side, static_io. Qed.

Lemma decode_call_write_side svc h api seqid :
  steps (same write_side) (decode_call svc h api seqid).
Proof.
  unfold decode_call, service_getattr, read_struct, read_message_end,
    log_iprot, get_thrift_spec.
  steps_tac.
Qed.

Lemma decode_call_grows svc h api seqid : steps grows (decode_call svc h api seqid).
Proof.
  unfold decode_call, service_getattr, read_struct, read_message_end,
    log_iprot, get_thrift_spec.
  steps_tac.
Qed.

Lemma steps_elim {A} R (m : M A) w o w' : steps R m → m w = (o, w') → R w w'.
Proof. intros H E. specialize (H w). by rewrite E in H. Qed.

Lemma read_struct_grows o : steps grows (read_struct o).
Proof. unfold read_struct, log_iprot. steps_tac. Qed.

Lemma read_message_end_grows : steps grows read_message_end.
Proof. unfold read_message_end, log_iprot. steps_tac. Qed.

Lemma service_getattr_same s n w o w' :
  service_getattr s n w = (Ret o, w') → w' = w.
Proof.
  unfold service_getattr. destruct (assoc_get n _); cbn; [| done].
  by intros [= _ <-].
Qed.

Lemma synthesize_cache_ok cls w :
  cache_ok w → cache_ok (TPayloadMeta.synthesize cls w).2.
Proof.
  intros Hok. pose proof (synthesize_spec cls w) as H.
  destruct (TPayloadMeta.synthesize cls w) as [[r | e] w']; cbn.
  - destruct H as (cl & Hcl & Hc & [[_ ->] | (Hn & -> & new & ds & Hcls & Hcache & Hkey & _)]);
      [done |].
    intros key r Hk. rewrite Hcache in Hk. rewrite Hcls.
    destruct (decide (key = TPayloadMeta.cache_key cl)) as [-> | Hne].
    + rewrite lookup_insert_eq in Hk. injection Hk as <-. exists new.
      split; [| done]. rewrite lookup_app_r by done.
      by rewrite Nat.sub_diag.
    + rewrite lookup_insert_ne in Hk by done.
      destruct (Hok _ _ Hk) as (c & Hc' & Hkey'). exists c.
      split; [by apply lookup_app_l_Some | done].
  - destruct H as (Hcache & new & Hcls & _). intros key r Hk.
    rewrite Hcache in Hk. destruct (Hok _ _ Hk) as (c & Hc' & Hkey').
    exists c. rewrite Hcls. split; [by apply lookup_app_l_Some | done].
Qed.

Lemma static_cache_ok w w' : same static w w' → cache_ok w → cache_ok w'.
Proof.
  unfold same, static, cache_ok. intros [= Hc Hk _ _ _ _] H key r.
  rewrite Hc, Hk. apply H.
Qed.

Lemma meta_call_registry w cls args kw v w' :
  registry_class w cls →
  TPayloadMeta.__call__ cls args kw w = (Ret v, w') →
  ∃ r wa, TPayloadMeta.synthesize cls w = (Ret r, wa) ∧
          type___call__ r args kw wa = (Ret v, w') ∧
          class_of v = Some r ∧ same static wa w'.
Proof.
  intros Hr. unfold TPayloadMeta.__call__. msimpl.
  unfold registry_class in Hr. rewrite Hr. msimpl.
  rewrite Nat.eqb_refl. cbn [negb].
  intros (r & wa & Hs & Hc)%bind_Ret_inv. exists r, wa.
  split_and!; [done | done | by eapply type_call_class |].
  by eapply (steps_elim _ _ _ _ _ (type_call_static r args kw)).
Qed.

#[export] Instance keeps_preorder P : PreOrder (keeps P).
Proof. split; [intros w H; exact H | intros w1 w2 w3 H1 H2 H; by apply H2, H1]. Qed.

Lemma static_keeps_cache_ok w w' : same static w w' → keeps cache_ok w w'.
Proof. intros H Hok. by eapply static_cache_ok. Qed.

Lemma instantiate_cache_ok cls args kw :
  steps (keeps cache_ok) (instantiate cls args kw).
Proof.
  assert (Ht : ∀ c a, steps (keeps cache_ok) (type___call__ c a kw)).
  { intros c a. eapply steps_weaken; [apply static_keeps_cache_ok |].
    apply type_call_static. }
  unfold instantiate. apply steps_bind; [apply _ | intros w H; exact H |].
  intros w0. destruct (is_payload_class w0 cls); [| apply Ht].
  unfold TPayloadMeta.__call__. apply steps_bind; [apply _ | intros w H; exact H |].
  intros w1. apply steps_bind; [apply _ | |].
  { destruct (mro w1 cls !! 1); [intros w H; exact H | ].
    apply steps_raise_py; [apply _ | intros w H; exact H]. }
  intros base. destruct (negb _); [apply Ht |].
  apply steps_bind; [apply _ | | intros; apply Ht].
  intros w Hok. by apply synthesize_cache_ok.
Qed.

Lemma read_struct_cache_ok o : steps (keeps cache_ok) (read_struct o).
Proof.
  unfold read_struct, log_iprot.
  apply steps_bind; [apply _ | intros w H; exact H |]. intros _.
  apply steps_bind; [apply _ | intros w H; exact H |]. intros w0.
  destruct (w_input w0); [apply steps_raise_py; [apply _ | intros w H; exact H] |].
  eapply steps_weaken; [apply static_keeps_cache_ok | apply assign_all_static].
Qed.

Lemma read_message_end_cache_ok : steps (keeps cache_ok) read_message_end.
Proof.
  unfold read_message_end, log_iprot.
  apply steps_bind; [apply _ | intros w H; exact H |]. intros _ w H. exact H.
Qed.

Lemma grows_builtins w w' : grows w w' → builtins_ok w → builtins_ok w'.
Proof.
  intros (new & Hn & _) (rest & Hr). exists (rest ++ new).
  by rewrite Hn, Hr, app_assoc.
Qed.

Lemma builtins_payload w : builtins_ok w → is_payload_class w cls_TApplicationException = true.
Proof. intros [rest Hr]. unfold is_payload_class, is_subclass, mro. by rewrite Hr. Qed.

(** What [instantiate] hands back: an instance of the class itself, or, for
    a class that went through the registry, an object that the metaclass
    instance check accepts for any class. *)
Lemma instantiate_result_class w R args kw v w' :
  builtins_ok w → cache_ok w →
  instantiate R args kw w = (Ret v, w') →
  class_of v = Some R ∨ isinstance w' v cls_TApplicationException = true.
Proof.
  intros Hb Hok. unfold instantiate. msimpl.
  destruct (is_payload_class w R).
  2: { intros H. left. by eapply type_call_class. }
  intros Hcall.
  destruct (mro w R !! 1) as [base|] eqn:Hbase.
  2: { revert Hcall. unfold TPayloadMeta.__call__. msimpl. by rewrite Hbase. }
  destruct (decide (base = cls_TSPayload)) as [-> | Hne].
  2: { left. revert Hcall. unfold TPayloadMeta.__call__. msimpl. rewrite Hbase.
       msimpl. rewrite (proj2 (Nat.eqb_neq _ _) Hne). cbn [negb].
       intros H. by eapply type_call_class. }
  right.
  apply meta_call_registry in Hcall as (r & wa & Hs & _ & Hv & Hst); [| done].
  pose proof (synthesize_spec R w) as Hspec. rewrite Hs in Hspec.
  destruct Hspec as (cl & _ & Hcache & _).
  pose proof (synthesize_cache_ok R w Hok) as Hoka. rewrite Hs in Hoka. cbn in Hoka.
  assert (Hok' : cache_ok w') by (by eapply static_cache_ok).
  assert (Hb' : builtins_ok w').
  { eapply grows_builtins; [| exact Hb].
    etrans; [exact (steps_elim _ _ _ _ _ (synthesize_grows R) Hs) |].
    by apply static_grows. }
  assert (Hcache' : w_cache w' !! TPayloadMeta.cache_key cl = Some r).
  { unfold same, static in Hst. by injection Hst as _ -> _ _ _ _. }
  destruct (Hok' _ _ Hcache') as (clr & Hclr & Hkr).
  destruct v as [| | | |i c a]; try done. injection Hv as ->.
  unfold isinstance. case_bool_decide; [done |].
  rewrite (builtins_payload _ Hb').
  unfold TPayloadMeta.__instancecheck__, type_key. rewrite Hclr. cbn.
  rewrite Hkr, Hcache'. by apply bool_decide_eq_true_2.
Qed.

Lemma get_thrift_spec_same c w o w' : get_thrift_spec c w = (Ret o, w') → w' = w.
Proof.
  unfold get_thrift_spec. msimpl. destruct (class_attr c_thrift_spec w c); cbn; [| done].
  by intros [= _ <-].
Qed.

Lemma or_raise_same {A} k (x : option A) w o w' : or_raise k x w = (Ret o, w') → w' = w.
Proof. destruct x; cbn; [by intros [= _ <-] | done]. Qed.

Lemma decode_call_result svc h api seqid w R api' seqid' result call w' :
  builtins_ok w → cache_ok w →
  assoc_get (api +:+ "_result") (service_attrs svc) = Some R →
  decode_call svc h api seqid w = (Ret (api', seqid', result, call), w') →
  api' = api ∧ seqid' = seqid ∧
  (class_of result = Some R ∨
   isinstance w' result cls_TApplicationException = true) ∧
  ∃ args names, call = Some (make_call h api args names).
Proof.
  intros Hb Hok HR. unfold decode_call.
  intros (A & w1 & H1 & H)%bind_Ret_inv.
  apply service_getattr_same in H1 as ->.
  apply bind_Ret_inv in H as (args & w2 & H2 & H).
  pose proof (steps_elim _ _ _ _ _ (instantiate_cache_ok _ _ _) H2 Hok) as Hok2.
  apply (steps_elim grows) in H2; [| apply instantiate_grows].
  apply bind_Ret_inv in H as (args' & w3 & H3 & H).
  pose proof (steps_elim _ _ _ _ _ (read_struct_cache_ok _) H3 Hok2) as Hok3.
  apply (steps_elim grows) in H3; [| apply read_struct_grows].
  apply bind_Ret_inv in H as ([] & w4 & H4 & H).
  pose proof (steps_elim _ _ _ _ _ read_message_end_cache_ok H4 Hok3) as Hok4.
  apply (steps_elim grows) in H4; [| apply read_message_end_grows].
  apply bind_Ret_inv in H as (R' & w5 & H5 & H).
  pose proof (service_getattr_same _ _ _ _ _ H5) as ->.
  unfold service_getattr in H5. rewrite HR in H5. injection H5 as <-.
  apply bind_Ret_inv in H as (res & w6 & H6 & H).
  apply instantiate_result_class in H6 as Hc; [| | done].
  2: { eapply grows_builtins; [| exact Hb]. by repeat (etrans; [eassumption |]). }
  apply bind_Ret_inv in H as (ac & w7 & H7 & H).
  apply or_raise_same in H7 as ->.
  apply bind_Ret_inv in H as (th & w8 & H8 & H).
  apply get_thrift_spec_same in H8 as ->.
  injection H as <- <- <- <- <-. eauto 10.
Qed.

Lemma make_call_oprot h api args api_args :
  steps (same w_oprot) (make_call h api args api_args).
Proof. unfold make_call. steps_tac. Qed.

Lemma make_call_grows h api args api_args :
  steps grows (make_call h api args api_args).
Proof. unfold make_call. steps_tac. Qed.

Lemma static_oprot w w' : same static w w' → same w_oprot w w'.
Proof. unfold same, static. by intros [= _ _ _ _ H _]. Qed.

Lemma process_oneway self w m rest R :
  builtins_ok w → cache_ok w →
  w_input w = m :: rest →
  m_name m ∈ thrift_services (p_service self) →
  assoc_get (m_name m +:+ "_result") (service_attrs (p_service self)) = Some R →
  class_attr c_oneway w R = Some true →
  w_calls (TProcessor.process self w).2 ≠ w_calls w →
  w_oprot (TProcessor.process self w).2 = w_oprot w.
Proof.
  intros Hb Hok Hin Hm HR Hone.
  unfold TProcessor.process, TProcessor.process_with. rewrite bind_unfold.
  assert (Hpi : TProcessor.process_in self w =
    decode_call (p_service self) (p_handler self) (m_name m) (m_seqid m)
      (set_iprot (λ l, l ++ [ReadMessageBegin]) w)).
  { unfold TProcessor.process_in, read_message_begin, log_iprot. msimpl.
    cbn [modify]. msimpl. cbn [w_input set_iprot]. rewrite Hin. msimpl.
    by rewrite bool_decide_eq_true_2. }
  rewrite Hpi. clear Hpi.
  set (w0 := set_iprot _ w).
  assert (Hg0 : grows w w0) by (by apply grows_quiet).
  pose proof (decode_call_write_side (p_service self) (p_handler self)
                (m_name m) (m_seqid m) w0) as Hw.
  pose proof (decode_call_grows (p_service self) (p_handler self)
                (m_name m) (m_seqid m) w0) as Hg.
  destruct (decode_call _ _ _ _ w0) as [[[[[api seqid] result] call] | e] w1] eqn:Hd;
    cbn in Hw, Hg.
  2: { cbn. injection Hw as Ho Hc. intros Hcalls. by rewrite Hc in Hcalls. }
  apply decode_call_result with (R := R) in Hd
    as (-> & -> & Hcls & args & names & ->); [| by eapply grows_builtins | done | done].
  injection Hw as Ho Hc. msimpl.
  assert (Hexc : w_calls (TProcessor.send_exception (m_name m) result (m_seqid m) w1).2
                 = w_calls w) by (by rewrite <- Hc).
  destruct (isinstance w1 result cls_TApplicationException) eqn:Hinst.
  { intros Hcalls. by exfalso. }
  destruct Hcls as [Hcls | ?]; [| done].
  intros _. rewrite bind_unfold.
  match goal with |- context [try_except ?b ?h w1] =>
    assert (Ht1 : steps (same w_oprot) (try_except b h));
    [| assert (Ht2 : steps grows (try_except b h));
       [| assert (Ht3 : ∀ r' w2, try_except b h w1 = (Ret r', w2) →
                         class_of r' = Some R);
          [| destruct (try_except b h w1) as [[r' | e] w2] eqn:Htry ]]]
  end.
  - apply steps_try_except; [apply _ | |].
    + apply steps_bind; [apply _ | apply make_call_oprot |].
      intros. eapply steps_weaken; [apply static_oprot | apply setattr_static].
    + intros. eapply steps_weaken; [apply static_oprot |].
      apply updated_handle_exception_static.
  - apply steps_try_except; [apply _ | |].
    + apply steps_bind; [apply _ | apply make_call_grows |].
      intros. apply setattr_grows.
    + intros. eapply steps_weaken; [apply static_grows |].
      apply updated_handle_exception_static.
  - intros r' w2. unfold try_except.
    destruct ((make_call _ _ _ _ ≫= _) w1) as [[a | e] w2'] eqn:Hbody.
    + intros [= <- <-]. apply bind_Ret_inv in Hbody as (v & w3 & _ & Hs).
      apply setattr_class in Hs as [-> _]. done.
    + destruct (class_of e) as [c|]; [| done].
      destruct (is_subclass w2' c cls_Exception); [| done].
      unfold updated.
      destruct (TProcessor.handle_exception e result w2') as [[[[] | x] r''] w3] eqn:Hh;
        [| done].
      intros [= <- <-]. apply handle_exception_class in Hh. congruence.
  - specialize (Ht3 _ _ eq_refl). rewrite Ht3. msimpl.
    apply (steps_elim _ _ _ _ _ Ht2) in Htry as Hg2.
    apply (steps_elim _ _ _ _ _ Ht1) in Htry as Ho2.
    rewrite (get_oneway_true w2 R).
    2: { eapply grows_oneway; [| exact Hone]. by repeat (etrans; [eassumption |]). }
    cbn. by rewrite Ho2, <- Ho.
  - cbn. rewrite <- Ho. apply (steps_elim _ _ _ _ _ Ht1 Htry).
Qed.


(** C6: for a method marked oneway, the client call is its send and nothing
    more (it touches neither the input stream nor its read log, and returns
    [None] as soon as the send returns), and a processor run that invokes
    the handler writes nothing on the output protocol. *)
Theorem oneway_no_reply (service : service) (seqid : Z) (h : handler)
    (api : string) (args : list value) (kwargs : list (string * value))
    (A R : cid) (ts : gmap Z field_spec) (wc ws : world) (m : message)
    (rest : list message) :
  let client := {| _service := service; _seqid := seqid |} in
  let processor := {| p_service := service; p_handler := h |} in
  assoc_get (api +:+ "_args") (service_attrs service) = Some A →
  assoc_get (api +:+ "_result") (service_attrs service) = Some R →
  class_attr c_thrift_spec wc A = Some ts →
  class_attr c_oneway wc R = Some true →
  api ∈ thrift_services service →
  class_attr c_oneway ws R = Some true →
  builtins_ok ws →
  cache_ok ws →
  w_input ws = m :: rest →
  m_name m = api →
  (TClient._req client api args kwargs wc =
     match TClient._send client api (dict_update kwargs (args2kwargs ts args)) wc with
     | (Ret _, w') => (Ret VNone, w')
     | (Raise e, w') => (Raise e, w')
     end ∧
   w_input (TClient._req client api args kwargs wc).2 = w_input wc ∧
   w_iprot (TClient._req client api args kwargs wc).2 = w_iprot wc) ∧
  (w_calls (TProcessor.process processor ws).2 ≠ w_calls ws →
   w_oprot (TProcessor.process processor ws).2 = w_oprot ws).
Proof.
  intros client processor HA HR Hts Hc Hapi Hs Hb Hok Hin Hm.
  assert (Hreq := req_oneway client api args kwargs wc A R ts HA Hts HR Hc).
  split; [split; [exact Hreq |] |].
  - rewrite Hreq.
    pose proof (send_read_side client api
                  (dict_update kwargs (args2kwargs ts args)) wc) as H.
    destruct (TClient._send client api _ wc) as [[[] | e] w']; cbn in *;
      by injection H as -> ->.
  - subst api. by eapply process_oneway.
Qed.

Lemma oneway_no_reply_witness :
  let client := {| _service := example_service; _seqid := 0 |} in
  let ws := with_input [request "ping" TMessageType.ONEWAY [("note", VStr "x")]]
              example_world in
  (TClient._req client "ping" [VStr "x"] [] example_world).1 = Ret VNone ∧
  w_iprot (TClient._req client "ping" [VStr "x"] [] example_world).2 = [] ∧
  w_calls (TProcessor.process example_processor ws).2 = [("ping", [VStr "x"])] ∧
  w_oprot (TProcessor.process example_processor ws).2 = [].
Proof.
  cbn zeta.
  destruct (oneway_no_reply example_service 0 example_handler "ping" [VStr "x"] []
              cls_ping_args cls_ping_result
              (<[1%Z := Spec3 TType.STRING "note" false]> ∅) example_world
              (with_input [request "ping" TMessageType.ONEWAY [("note", VStr "x")]]
                 example_world)
              (request "ping" TMessageType.ONEWAY [("note", VStr "x")]) [])
    as [(Hreq & _ & Hip) Hsrv]; try reflexivity.
  - cbn. rewrite !elem_of_cons. auto.
  - by exists (drop 14 example_classes).
  - by intros ? ? ?.
  - split; [by rewrite Hreq |]. split; [exact Hip |].
    assert (Hcalls : w_calls (TProcessor.process example_processor
              (with_input [request "ping" TMessageType.ONEWAY [("note", VStr "x")]]
                 example_world)).2 = [("ping", [VStr "x"])])
      by (vm_compute; reflexivity).
    split; [exact Hcalls |]. apply Hsrv. vm_compute. discriminate.
Defined.

(** ** The registry: canonical classes *)

(** C1 (as the code has it): for classes whose first base is [TSPayload],
    two instantiation requests under the same registry key are served from
    one and the same class object, which the second request finds in the
    registry without creating anything; the instances of both requests
    pass the metaclass instance check, and [isinstance], against it. *)
Theorem registry_canonical (w : world) (c1 c2 : cid) (cl1 cl2 : class)
    (args1 args2 : list value) (kw1 kw2 : list (string * value))
    (v1 v2 : value) (w1 w2 : world) :
  cache_ok w →
  w_classes w !! c1 = Some cl1 →
  w_classes w !! c2 = Some cl2 →
  registry_class w c1 →
  registry_class w c2 →
  TPayloadMeta.cache_key cl1 = TPayloadMeta.cache_key cl2 →
  TPayloadMeta.__call__ c1 args1 kw1 w = (Ret v1, w1) →
  TPayloadMeta.__call__ c2 args2 kw2 w1 = (Ret v2, w2) →
  ∃ canon,
    class_of v1 = Some canon ∧ class_of v2 = Some canon ∧
    w_cache w1 !! TPayloadMeta.cache_key cl1 = Some canon ∧
    w_cache w2 = w_cache w1 ∧ w_classes w2 = w_classes w1 ∧
    (∀ c, TPayloadMeta.__instancecheck__ w2 c v1 = true ∧
          TPayloadMeta.__instancecheck__ w2 c v2 = true) ∧
    isinstance w2 v1 canon = true ∧ isinstance w2 v2 canon = true.
Proof.
  intros Hok H1 H2 Hr1 Hr2 Hkey Hcall1 Hcall2.
  apply meta_call_registry in Hcall1 as (r1 & wa & Hs1 & _ & Hv1 & Hst1); [| done].
  pose proof (synthesize_spec c1 w) as Hspec1. rewrite Hs1 in Hspec1.
  destruct Hspec1 as (cl & Hcl & Hcache_a & _).
  rewrite H1 in Hcl. injection Hcl as <-.
  pose proof (synthesize_cache_ok c1 w Hok) as Hok_a. rewrite Hs1 in Hok_a.
  cbn in Hok_a.
  pose proof (steps_elim _ _ _ _ _ (synthesize_grows c1) Hs1) as Hg_a.
  assert (Hg1 : grows w w1).
  { etrans; [exact Hg_a | by apply static_grows]. }
  assert (Hok1 : cache_ok w1) by (by eapply static_cache_ok).
  assert (Hcache1 : w_cache w1 !! TPayloadMeta.cache_key cl1 = Some r1).
  { unfold same, static in Hst1. injection Hst1 as _ -> _ _ _ _. done. }
  assert (Hr2' : registry_class w1 c2).
  { unfold registry_class. by rewrite (grows_mro _ _ _ _ Hg1 H2). }
  apply meta_call_registry in Hcall2 as (r2 & wb & Hs2 & _ & Hv2 & Hst2); [| done].
  pose proof (synthesize_spec c2 w1) as Hspec2. rewrite Hs2 in Hspec2.
  destruct Hspec2 as (cl & Hcl & _ & Hcases).
  rewrite (grows_lookup _ _ _ _ Hg1 H2) in Hcl. injection Hcl as <-.
  rewrite <- Hkey in Hcases.
  destruct Hcases as [[Hhit ->] | [Hmiss _]]; [| congruence].
  assert (r2 = r1) as -> by congruence.
  assert (Hok2 : cache_ok w2) by (by eapply static_cache_ok).
  unfold same, static in Hst2. injection Hst2 as Hcls2 Hca2 _ _ _ _.
  assert (Hcache2 : w_cache w2 !! TPayloadMeta.cache_key cl1 = Some r1)
    by (by rewrite Hca2).
  destruct (Hok2 _ _ Hcache2) as (clr & Hclr & Hkr).
  assert (Hic : ∀ c' v, class_of v = Some r1 →
            TPayloadMeta.__instancecheck__ w2 c' v = true).
  { intros c' [| | | |i c a]; try done. intros [= ->].
    unfold TPayloadMeta.__instancecheck__, type_key. rewrite Hclr. cbn.
    rewrite Hkr, Hcache2. by apply bool_decide_eq_true_2. }
  assert (His : ∀ v, class_of v = Some r1 → isinstance w2 v r1 = true).
  { intros v Hv. unfold isinstance. by rewrite bool_decide_eq_true_2. }
  exists r1. split_and!; auto.
Qed.

Lemma registry_canonical_witness :
  ∃ v1 w1 v2 w2 canon,
    TPayloadMeta.__call__ cls_SPerson [VStr "Bob"] [] example_world = (Ret v1, w1) ∧
    TPayloadMeta.__call__ cls_SPerson_again [] [("name", VStr "Bob")] w1 = (Ret v2, w2) ∧
    class_of v1 = Some canon ∧ class_of v2 = Some canon ∧
    TPayloadMeta.__instancecheck__ w2 canon v1 = true ∧
    TPayloadMeta.__instancecheck__ w2 canon v2 = true.
Proof.
  destruct (TPayloadMeta.__call__ cls_SPerson [VStr "Bob"] [] example_world)
    as [o1 w1] eqn:E1.
  destruct (TPayloadMeta.__call__ cls_SPerson_again [] [("name", VStr "Bob")] w1)
    as [o2 w2] eqn:E2.
  assert (∃ v1, o1 = Ret v1) as [v1 ->].
  { vm_compute in E1. injection E1 as <- _. eauto. }
  assert (∃ v2, o2 = Ret v2) as [v2 ->].
  { vm_compute in E1. injection E1 as _ <-. vm_compute in E2.
    injection E2 as <- _. eauto. }
  destruct (registry_canonical example_world cls_SPerson cls_SPerson_again
              (mk_struct "Person" "slots_thrift" [16; 4; 0] (Some ["name"])
                 [("name", VNone)] name_spec None)
              (mk_struct "Person" "slots_thrift" [17; 4; 0] (Some ["name"])
                 [("name", VNone)] name_spec None)
              [VStr "Bob"] [] [] [("name", VStr "Bob")] v1 v2 w1 w2)
    as (canon & ? & ? & ? & ? & ? & Hic & ? & ?);
    [by intros ? ? ? | reflexivity | reflexivity | reflexivity | reflexivity
    | reflexivity | exact E1 | exact E2 |].
  exists v1, w1, v2, w2, canon. destruct (Hic canon). done.
Defined.

(** C1 fails as stated: the two [Person] classes of a schema loaded twice
    without slots share module and name, yet each instantiation request is
    served by its own class; the registry is not consulted, and an
    instance of one is not recognised against the other. *)
Lemma plain_classes_not_canonical :
  ∃ v1 w1 v2 w2,
    (c_module <$> example_classes !! cls_Person,
     c_name <$> example_classes !! cls_Person) =
    (c_module <$> example_classes !! cls_Person_again,
     c_name <$> example_classes !! cls_Person_again) ∧
    TPayloadMeta.__call__ cls_Person [] [] example_world = (Ret v1, w1) ∧
    TPayloadMeta.__call__ cls_Person_again [] [] w1 = (Ret v2, w2) ∧
    class_of v1 ≠ class_of v2 ∧
    w_cache w2 = ∅ ∧
    TPayloadMeta.__instancecheck__ w2 cls_Person_again v1 = false ∧
    isinstance w2 v1 cls_Person_again = false.
Proof.
  eexists _, _, _, _. split; [reflexivity |].
  split; [vm_compute; reflexivity |].
  split; [vm_compute; reflexivity |].
  split; [discriminate |]. split; [reflexivity |].
  split; vm_compute; reflexivity.
Qed.


(** ** The processor: handler exceptions *)

Lemma sorted_keys_elem spec k : k ∈ sorted_keys spec ↔ is_Some (spec !! k).
Proof.
  unfold sorted_keys. rewrite merge_sort_Permutation.
  rewrite list_elem_of_fmap. split.
  - intros ([k' f] & -> & H%elem_of_map_to_list). eauto.
  - intros [f H]. exists (k, f). split; [done |]. by apply elem_of_map_to_list.
Qed.

Lemma sorted_keys_NoDup spec : NoDup (sorted_keys spec).
Proof.
  unfold sorted_keys. rewrite merge_sort_Permutation.
  apply NoDup_fst_map_to_list.
Qed.

Lemma sorted_keys_sorted spec : StronglySorted Z.le (sorted_keys spec).
Proof. apply StronglySorted_merge_sort; apply _. Qed.

(** Before a key of the sorted list come exactly the smaller keys. *)
Lemma sorted_keys_split spec k :
  is_Some (spec !! k) →
  ∃ pre post, sorted_keys spec = pre ++ k :: post ∧
    ∀ k', k' ∈ pre ↔ (is_Some (spec !! k') ∧ (k' < k)%Z).
Proof.
  intros Hk. apply sorted_keys_elem in Hk as Hin.
  apply list_elem_of_split in Hin as (pre & post & Heq).
  exists pre, post. split; [done |]. intros k'.
  pose proof (sorted_keys_NoDup spec) as Hnd.
  pose proof (sorted_keys_sorted spec) as Hs.
  rewrite Heq in Hnd, Hs.
  apply NoDup_app in Hnd as (_ & Hdisj & Hnd2).
  apply NoDup_cons in Hnd2 as [Hk_post _].
  split.
  - intros Hpre. split.
    + apply sorted_keys_elem. rewrite Heq. apply elem_of_app. by left.
    + assert (k' ≤ k)%Z.
      { eapply StronglySorted_app_1_elem_of; [exact Hs | done | by left]. }
      assert (k' ≠ k); [| lia].
      intros ->. apply (Hdisj k Hpre). by left.
  - intros [Hsome Hlt]. apply sorted_keys_elem in Hsome. rewrite Heq in Hsome.
    apply elem_of_app in Hsome as [? | Hr]; [done |].
    apply elem_of_cons in Hr as [-> | Hpost]; [lia |].
    apply StronglySorted_app_1_r, StronglySorted_inv in Hs as [_ Hall].
    rewrite Forall_forall in Hall. specialize (Hall _ Hpost). lia.
Qed.

Lemma isinstance_value_class e c w :
  isinstance_value e (VClass c) w = (Ret (isinstance w e c), w).
Proof. reflexivity. Qed.

Lemma loop_no_match w spec e result keys :
  declared_throws spec →
  (∀ k, k ∈ keys → is_Some (spec !! k)) →
  no_match w spec e keys →
  TProcessor.handle_exception_loop spec e result keys w = (Raise e, result, w).
Proof.
  intros Hd. induction keys as [|k ks IH]; intros Hin Hno; [done |].
  cbn. destruct (Hin k) as [f Hf]; [by left |]. rewrite Hf.
  assert (IH' : TProcessor.handle_exception_loop spec e result ks w =
                (Raise e, result, w)).
  { apply IH.
    - intros k' Hk'. apply Hin. by right.
    - intros k' t n c r Hk'. apply Hno. by right. }
  destruct (String.eqb (spec_name f) "success") eqn:Hs.
  - destruct f; cbn in Hs; rewrite Hs; exact IH'.
  - apply String.eqb_neq in Hs.
    destruct (Hd _ _ Hf Hs) as (t & n & c & r & ->). cbn in Hs.
    rewrite (proj2 (String.eqb_neq _ _) Hs). rewrite isinstance_value_class.
    rewrite (Hno k t n c r); [exact IH' | by left | done | done].
Qed.

Lemma loop_first_match w spec e result pre k post t n c r result' :
  declared_throws spec →
  (∀ k', k' ∈ pre → is_Some (spec !! k')) →
  no_match w spec e pre →
  spec !! k = Some (Spec4 t n (VClass c) r) →
  n ≠ "success" →
  isinstance w e c = true →
  set_attribute w result n e = Ok result' →
  TProcessor.handle_exception_loop spec e result (pre ++ k :: post) w =
    (Ret tt, result', w).
Proof.
  intros Hd Hin Hno Hk Hn Hi Hset.
  induction pre as [|k' pre IH]; cbn.
  - rewrite Hk, (proj2 (String.eqb_neq _ _) Hn), isinstance_value_class, Hi.
    unfold setattr. msimpl. by rewrite Hset.
  - destruct (Hin k') as [f Hf]; [by left |]. rewrite Hf.
    assert (IH' : TProcessor.handle_exception_loop spec e result
                    (pre ++ k :: post) w = (Ret tt, result', w)).
    { apply IH.
      - intros k'' Hk''. apply Hin. by right.
      - intros k'' t' n' c' r' Hk''. apply Hno. by right. }
    destruct (String.eqb (spec_name f) "success") eqn:Hs.
    + destruct f; cbn in Hs; rewrite Hs; exact IH'.
    + apply String.eqb_neq in Hs.
      destruct (Hd _ _ Hf Hs) as (t' & n' & c' & r' & ->). cbn in Hs.
      rewrite (proj2 (String.eqb_neq _ _) Hs), isinstance_value_class.
      rewrite (Hno k' t' n' c' r'); [exact IH' | by left | done | done].
Qed.

(** C8: when the handler raised [e], [handle_exception] walks the declared
    fields of the result in ascending field-id order, skips [success], and
    sets the first field whose exception class [e] is an instance of,
    leaving the world as it is; when no declared field matches it raises
    [e] again and leaves the result struct untouched, and [process] lets
    that exception out without writing anything. *)
Theorem handle_exception_declared (w : world) (e result : value) (rc : cid)
    (spec : gmap Z field_spec) :
  class_of result = Some rc →
  class_attr c_thrift_spec w rc = Some spec →
  declared_throws spec →
  (∀ k t n c r result',
     spec !! k = Some (Spec4 t n (VClass c) r) →
     n ≠ "success" →
     isinstance w e c = true →
     (∀ k' t' n' c' r',
        (k' < k)%Z → spec !! k' = Some (Spec4 t' n' (VClass c') r') →
        n' ≠ "success" → isinstance w e c' = false) →
     set_attribute w result n e = Ok result' →
     TProcessor.handle_exception e result w = (Ret tt, result', w)) ∧
  (no_match w spec e (sorted_keys spec) →
   TProcessor.handle_exception e result w = (Raise e, result, w)) ∧
  (∀ process_in w0 api seqid call w1 ce,
     process_in w0 = (Ret (api, seqid, result, Some call), w1) →
     isinstance w1 result cls_TApplicationException = false →
     call w1 = (Raise e, w) →
     class_of e = Some ce →
     is_subclass w ce cls_Exception = true →
     no_match w spec e (sorted_keys spec) →
     TProcessor.process_with process_in w0 = (Raise e, w)).
Proof.
  intros Hc Hspec Hd.
  assert (Hraise : no_match w spec e (sorted_keys spec) →
            TProcessor.handle_exception e result w = (Raise e, result, w)).
  { intros Hno. unfold TProcessor.handle_exception.
    rewrite Hc. cbn [mbind option_bind]. rewrite Hspec.
    apply loop_no_match; [done | | done]. intros k. apply sorted_keys_elem. }
  split_and!; [| exact Hraise |].
  - unfold TProcessor.handle_exception.
    rewrite Hc. cbn [mbind option_bind]. rewrite Hspec.
    intros k t n c r result' Hk Hn Hi Hfirst Hset.
    destruct (sorted_keys_split spec k) as (pre & post & -> & Hpre); [eauto |].
    eapply loop_first_match; eauto.
    + intros k' Hk'. by apply Hpre in Hk' as [? _].
    + intros k' t' n' c' r' Hk' Hs' Hn'. apply Hpre in Hk' as [_ Hlt]. eauto.
  - intros pin w0 api seqid call w1 ce Hpin Hnot Hcall Hce Hsub Hno.
    unfold TProcessor.process_with. rewrite bind_unfold, Hpin. msimpl.
    rewrite Hnot. rewrite bind_unfold. unfold try_except at 1.
    rewrite bind_unfold, Hcall, Hce, Hsub. unfold updated.
    by rewrite (Hraise Hno).
Qed.


Lemma handle_exception_declared_witness :
  let result := VObj 1 cls_getPerson_result [("success", VNone); ("e", VNone)] in
  let declared := VObj 200 cls_PersonNotExistsError [("message", VNone)] in
  let undeclared := VObj 201 cls_ValueError [] in
  TProcessor.handle_exception declared result example_world =
    (Ret tt, VObj 1 cls_getPerson_result [("success", VNone); ("e", declared)],
     example_world) ∧
  TProcessor.handle_exception undeclared result example_world =
    (Raise undeclared, result, example_world).
Proof.
  cbn zeta.
  set (spec := <[0%Z := Spec4 TType.STRUCT "success" (VClass 14) false]>
                 (<[1%Z := Spec4 TType.STRUCT "e" (VClass 18) false]> ∅)
               : gmap Z field_spec).
  assert (Hd : declared_throws spec).
  { intros k f Hk Hn. unfold spec in Hk.
    apply lookup_insert_Some in Hk as [[_ <-] | [_ Hk]]; [by eauto |].
    apply lookup_insert_Some in Hk as [[_ <-] | [_ Hk]]; [by eauto |].
    by rewrite lookup_empty in Hk. }
  split.
  - refine (proj1 (handle_exception_declared example_world
                     (VObj 200 cls_PersonNotExistsError [("message", VNone)])
                     (VObj 1 cls_getPerson_result [("success", VNone); ("e", VNone)])
                     cls_getPerson_result spec eq_refl eq_refl Hd)
              1%Z TType.STRUCT "e" 18 false _ eq_refl _ eq_refl _ eq_refl).
    + discriminate.
    + intros k' t' n' c' r' Hlt Hk' Hn'. unfold spec in Hk'.
      apply lookup_insert_Some in Hk' as [[_ [= _ <- _ _]] | [_ Hk']]; [done |].
      apply lookup_insert_Some in Hk' as [[<- _] | [_ Hk']]; [lia |].
      by rewrite lookup_empty in Hk'.
  - refine (proj1 (proj2 (handle_exception_declared example_world
                     (VObj 201 cls_ValueError [])
                     (VObj 1 cls_getPerson_result [("success", VNone); ("e", VNone)])
                     cls_getPerson_result spec eq_refl eq_refl Hd)) _).
    intros k t n c r _ Hk Hn. unfold spec in Hk.
    apply lookup_insert_Some in Hk as [[_ [= _ <- _ _]] | [_ Hk]]; [done |].
    apply lookup_insert_Some in Hk as [[_ [= _ _ <- _]] | [_ Hk]];
      [vm_compute; reflexivity |].
    by rewrite lookup_empty in Hk.
Defined.

(** ** The client: decoding a reply *)

Lemma filter_all {A} (P : A → Prop) `{∀ x, Decision (P x)} (l : list A) :
  Forall P l → filter P l = l.
Proof.
  induction 1 as [|x l Hx _ IH]; [done |].
  rewrite filter_cons_True by done. by rewrite IH.
Qed.

Lemma assoc_set_keys_new {A} k (v : A) l :
  k ∉ l.*1 → assoc_set k v l = l ++ [(k, v)].
Proof.
  induction l as [|[k' v'] l IH]; cbn; [done |].
  rewrite not_elem_of_cons. intros [Hne Hnin].
  rewrite (proj2 (String.eqb_neq _ _) Hne). by rewrite IH.
Qed.























(** ** Payload equality and representation *)

Lemma assoc_get_None {A} k (l : list (string * A)) :
  k ∉ l.*1 → assoc_get k l = None.
Proof.
  induction l as [|[k' v] l IH]; cbn; [done |].
  rewrite not_elem_of_cons. intros [Hne Hnin].
  by rewrite (proj2 (String.eqb_neq _ _) Hne), IH.
Qed.

Lemma assoc_set_elem {A} k (v : A) l : k ∈ (assoc_set k v l).*1.
Proof.
  induction l as [|[k' v'] l IH]; cbn; [by left |].
  destruct (String.eqb k k'); cbn; [by left | by right].
Qed.

Lemma items_eq_missing veq skip db name : ∀ l,
  name ∈ l.*1 → name ∉ skip → assoc_get name db = None →
  items_eq veq skip l db ≠ Ok true.
Proof.
  induction l as [|[k v] l IH]; cbn; [by intros ?%elem_of_nil |].
  intros Hin Hskip Hdb. apply elem_of_cons in Hin.
  destruct (bool_decide (k ∈ skip)) eqn:Hk.
  - apply bool_decide_eq_true in Hk. destruct Hin as [-> | Hin]; [done |]. by apply IH.
  - destruct (assoc_get k db) as [v'|] eqn:Hv; [| done].
    destruct (veq v v') as [[] |]; [| done | done].
    destruct Hin as [-> | Hin]; [congruence | by apply IH].
Qed.

(** C2 (as the code has it): equality of open-storage payloads compares
    the whole instance dictionaries and the representation enumerates every
    entry of the instance dictionary in insertion order.  So an instance
    that was given an attribute outside its declared fields is never equal
    to an instance that lacks it, and a new attribute shows up last in the
    representation. *)
Theorem payload_eq_whole_dict (repr : value → string) (w : world) (i : nat)
    (c : cid) (cl : class) (attrs db : list (string * value)) (other : value)
    (name : string) (v : value) :
  w_classes w !! c = Some cl →
  has_dict w c = true →
  slot_names w c = [] →
  obj_dict w other = Some db →
  name ∉ db.*1 →
  name ∉ attrs.*1 →
  TPayload.__eq__ w (VObj i c (assoc_set name v attrs)) other ≠ Ok true ∧
  TPayload.__repr__ repr w (VObj i c (assoc_set name v attrs)) =
    Ok (c_name cl +:+ "(" +:+
        join ", " (map (λ kv, kv.1 +:+ "=" +:+ repr kv.2) (attrs ++ [(name, v)]))
        +:+ ")").
Proof.
  intros Hcl Hd Hs Hdb Hname Hnew. split.
  - cbn. unfold payload_eq. destruct (isinstance w other c); [| done].
    rewrite Hd, Hdb. case_match; [| done].
    apply items_eq_missing with (name := name).
    + apply assoc_set_elem.
    + rewrite Hs. apply not_elem_of_nil.
    + by apply assoc_get_None.
  - unfold TPayload.__repr__. cbn. rewrite Hd, Hcl, Hs. cbn. f_equal.
    rewrite filter_all by (apply Forall_forall; intros ? _; apply not_elem_of_nil).
    by rewrite assoc_set_keys_new.
Qed.

Lemma payload_eq_whole_dict_witness :
  TPayload.__eq__ example_world
    (VObj 1 cls_Person [("name", VStr "Bob"); ("nickname", VStr "Bobby")])
    (VObj 2 cls_Person [("name", VStr "Bob")]) ≠ Ok true.
Proof.
  refine (proj1 (payload_eq_whole_dict example_repr example_world 1 cls_Person
            (mk_struct "Person" "addressbook_thrift" [14; 3; 0] None
               [("name", VNone)] name_spec None)
            [("name", VStr "Bob")] [("name", VStr "Bob")]
            (VObj 2 cls_Person [("name", VStr "Bob")]) "nickname" (VStr "Bobby")
            eq_refl eq_refl eq_refl eq_refl _ _)).
  - cbn. rewrite list_elem_of_singleton. discriminate.
  - cbn. rewrite list_elem_of_singleton. discriminate.
Defined.

(** C2 fails as stated: two [Person] instances with the same declared
    field are equal; once one of them is given an attribute that is not a
    declared field they are not, and the attribute appears in the
    representation. *)
Lemma undeclared_attribute_counts :
  let a := VObj 1 cls_Person [("name", VStr "Bob")] in
  let b := VObj 2 cls_Person [("name", VStr "Bob")] in
  ∃ a', setattr a "nickname" (VStr "Bobby") example_world = (Ret a', example_world) ∧
    class_attr c_thrift_spec example_world cls_Person = Some name_spec ∧
    ("nickname" ∉ field_names name_spec) ∧
    TPayload.__eq__ example_world a b = Ok true ∧
    TPayload.__eq__ example_world a' b = Ok false ∧
    TPayload.__repr__ example_repr example_world a = Ok "Person(name='Bob')" ∧
    TPayload.__repr__ example_repr example_world a' =
      Ok "Person(name='Bob', nickname='Bobby')".
Proof.
  cbn zeta. eexists. split; [vm_compute; reflexivity |].
  split; [reflexivity |].
  split.
  { replace (field_names name_spec) with ["name"] by (vm_compute; reflexivity).
    rewrite list_elem_of_singleton. discriminate. }
  repeat split; vm_compute; reflexivity.
Qed.


(** ** The multiplexed processor *)

(** C9: when the request read by the multiplexed processor has a message
    type other than CALL and ONEWAY, or a method name without the separator,
    processing raises a [TException] to the caller after reading the header
    only: nothing is written on the output protocol and no handler of a
    registered processor is invoked. *)
Theorem mux_rejects (self : TMultiplexedProcessor_obj) (w : world)
    (m : message) (rest : list message) :
  builtins_ok w →
  w_input w = m :: rest →
  contains_char TMultiplexedProcessor.SEPARATOR (m_name m) = false ∨
    (m_type m ≠ TMessageType.CALL ∧ m_type m ≠ TMessageType.ONEWAY) →
  ∃ e w',
    TMultiplexedProcessor.process self w = (Raise e, w') ∧
    TMultiplexedProcessor.process_in self w = (Raise e, w') ∧
    class_of e = Some cls_TException ∧
    w_oprot w' = w_oprot w ∧
    w_calls w' = w_calls w ∧
    w_iprot w' = w_iprot w ++ [ReadMessageBegin] ∧
    w_input w' = w_input w.
Proof.
  intros [cl Hcl] Hin Hbad.
  destruct w as [classes cache nid input ip op calls]; cbn in *. subst.
  unfold TMultiplexedProcessor.process, TProcessor.process_with,
    TMultiplexedProcessor.process_in, read_message_begin, log_iprot.
  unfold_M. cbn.
  destruct (negb ((m_type m =? TMessageType.CALL)%Z ||
                  (m_type m =? TMessageType.ONEWAY)%Z)) eqn:Ht.
  - cbn. eexists _, _. split; [reflexivity |]. cbn. done.
  - destruct Hbad as [Hsep | [H1 H2]].
    + rewrite Hsep. cbn. eexists _, _. split; [reflexivity |]. cbn. done.
    + apply negb_false_iff, orb_true_iff in Ht as [Ht | Ht];
        apply Z.eqb_eq in Ht; done.
Qed.

Lemma mux_rejects_witness :
  let mux := {| processors := [("Addr", example_processor)] |} in
  (∃ e w', TMultiplexedProcessor.process mux
             (with_input [request "getPerson" TMessageType.CALL []] example_world)
             = (Raise e, w') ∧ w_oprot w' = [] ∧ w_calls w' = []) ∧
  (∃ e w', TMultiplexedProcessor.process mux
             (with_input [request "Addr:getPerson" TMessageType.REPLY []] example_world)
             = (Raise e, w') ∧ w_oprot w' = [] ∧ w_calls w' = []).
Proof.
  cbn zeta. split.
  - destruct (mux_rejects {| processors := [("Addr", example_processor)] |}
                (with_input [request "getPerson" TMessageType.CALL []] example_world)
                (request "getPerson" TMessageType.CALL []) [])
      as (e & w' & H & _ & _ & Ho & Hc & _).
    + by exists (drop 14 example_classes).
    + reflexivity.
    + left. reflexivity.
    + exists e, w'. split; [exact H |]. split; [exact Ho | exact Hc].
  - destruct (mux_rejects {| processors := [("Addr", example_processor)] |}
                (with_input [request "Addr:getPerson" TMessageType.REPLY []] example_world)
                (request "Addr:getPerson" TMessageType.REPLY []) [])
      as (e & w' & H & _ & _ & Ho & Hc & _).
    + by exists (drop 14 example_classes).
    + reflexivity.
    + right. split; discriminate.
    + exists e, w'. split; [exact H |]. split; [exact Ho | exact Hc].
Defined.

(** ** Exceptions: identity *)

Lemma own_hash_None k : own_eq k = None → own_hash k = None.
Proof.
  unfold own_eq, own_hash.
  repeat (destruct (Nat.eqb k _); [discriminate |]); done.
Qed.

Lemma resolve_eq_exception w c :
  exception_payload w c → resolve_eq w c = EqIdentity.
Proof.
  intros (pre & post & Hm & Hpre). unfold resolve_eq. rewrite Hm.
  clear Hm. induction Hpre as [|k pre Hk _ IH]; [done |].
  cbn. rewrite Hk. exact IH.
Qed.

Lemma resolve_hash_exception w c :
  exception_payload w c → resolve_hash w c = HashIdentity.
Proof.
  intros (pre & post & Hm & Hpre). unfold resolve_hash. rewrite Hm.
  clear Hm. induction Hpre as [|k pre Hk _ IH]; [done |].
  cbn. rewrite (own_hash_None _ Hk). exact IH.
Qed.

(** C10: an instance of an exception-typed payload class finds
    [TException.__eq__] and [TException.__hash__] first on its MRO: its hash
    is its identity, it compares equal to a value exactly when that value
    has the same identity, and two distinct instances are unequal even when
    their fields hold the same values. *)
Theorem exception_identity (w : world) (c : cid) (i : nat)
    (attrs : list (string * value)) (other : value) :
  exception_payload w c →
  resolve_eq w c = EqIdentity ∧ resolve_hash w c = HashIdentity ∧
  TException.__hash__ (VObj i c attrs) = Some i ∧
  py_eq w (VObj i c attrs) other = Ok (TException.__eq__ (VObj i c attrs) other) ∧
  (py_eq w (VObj i c attrs) other = Ok true ↔ id_of other = Some i) ∧
  (∀ j, j ≠ i → py_eq w (VObj i c attrs) (VObj j c attrs) = Ok false).
Proof.
  intros Hc. pose proof (resolve_eq_exception _ _ Hc) as He.
  split_and!; [done | by apply resolve_hash_exception | done | | |].
  - cbn. rewrite He. unfold TException.__eq__. cbn. done.
  - cbn. rewrite He. split.
    + intros [= H]. by apply bool_decide_eq_true in H.
    + intros ->. by rewrite bool_decide_eq_true_2.
  - intros j Hj. cbn. rewrite He. f_equal. apply bool_decide_eq_false_2.
    cbn. congruence.
Qed.

Lemma exception_identity_witness :
  exception_payload example_world cls_PersonNotExistsError ∧
  py_eq example_world
    (VObj 1 cls_PersonNotExistsError [("message", VNone)])
    (VObj 2 cls_PersonNotExistsError [("message", VNone)]) = Ok false.
Proof.
  assert (H : exception_payload example_world cls_PersonNotExistsError).
  { exists [cls_PersonNotExistsError], [3; 2; 1; 0]. split; [reflexivity |].
    repeat constructor. }
  split; [exact H |].
  apply (exception_identity example_world cls_PersonNotExistsError 1
           [("message", VNone)] VNone H). lia.
Defined.
